(** * Lumen: note identity and referential integrity

    A shallow embedding of the note-id helpers ([slugifySegment], [toSlug],
    [getFolderPrefixes]), of the rename and move hooks ([useRenameNote],
    [useMoveNotesToFolder], [useSaveNote]) and of the tag-cloud computation
    ([sortedTagFrequencies]), together with the properties they satisfy.

    Strings are Stdlib [string]s; a character is an 8-bit code unit read as
    U+0000..U+00FF.  The reactive file set ([markdownFilesAtom]) and the
    batches handed to the state machine are finite maps keyed by storage
    key. *)

From Stdlib Require Import String Ascii List Bool Arith Lia Permutation Sorted.
From stdpp Require Import gmap strings list fin_maps pretty.
Import ListNotations.
Open Scope string_scope.

(** ** JavaScript string primitives used by the source *)

Module Js.

(** [s.split(sep)] for a one-character separator; [split sep ""] is [[""]]. *)
Fixpoint split (sep : ascii) (s : string) : list string :=
  match s with
  | EmptyString => [EmptyString]
  | String c s' =>
      if Ascii.eqb c sep then EmptyString :: split sep s'
      else match split sep s' with
           | h :: t => String c h :: t
           | [] => [String c EmptyString]
           end
  end.

(** [parts.join(sep)] *)
Definition join (sep : string) (parts : list string) : string :=
  String.concat sep parts.

(** [s.includes(c)] for a one-character needle. *)
Fixpoint includes (c : ascii) (s : string) : bool :=
  match s with
  | EmptyString => false
  | String d s' => Ascii.eqb d c || includes c s'
  end.

(** [other.startsWith(s)] *)
Definition startsWith (other s : string) : bool := String.prefix s other.

(** Truthiness of a string: only the empty string is falsy. *)
Definition truthy (s : string) : bool := negb (String.eqb s "").

Fixpoint all_chars (p : ascii -> bool) (s : string) : bool :=
  match s with
  | EmptyString => true
  | String c s' => p c && all_chars p s'
  end.

(** White space and line terminators below U+0100: TAB, LF, VT, FF, CR,
    SPACE and NO-BREAK SPACE.  This is both what [trim] strips and what
    the regular expression class [\s] matches. *)
Definition isSpace (c : ascii) : bool :=
  let n := nat_of_ascii c in
  (((9 <=? n) && (n <=? 13)) || (n =? 32) || (n =? 160))%nat.

Fixpoint trimStart (s : string) : string :=
  match s with
  | EmptyString => EmptyString
  | String c s' => if isSpace c then trimStart s' else s
  end.

Fixpoint trimEnd (s : string) : string :=
  match s with
  | EmptyString => EmptyString
  | String c s' =>
      match trimEnd s' with
      | EmptyString => if isSpace c then EmptyString else String c EmptyString
      | r => String c r
      end
  end.

Definition trim (s : string) : string := trimEnd (trimStart s).

(** [toLowerCase] on one code unit below U+0100: A-Z, and the Latin-1
    capitals U+00C0..U+00DE except the multiplication sign U+00D7. *)
Definition lowerChar (c : ascii) : ascii :=
  let n := nat_of_ascii c in
  if (((65 <=? n) && (n <=? 90))
      || ((192 <=? n) && (n <=? 222) && negb (n =? 215)))%nat
  then ascii_of_nat (n + 32) else c.

Fixpoint toLowerCase (s : string) : string :=
  match s with
  | EmptyString => EmptyString
  | String c s' => String (lowerChar c) (toLowerCase s')
  end.

Definition dash : ascii := "-"%char.
Definition slash : ascii := "/"%char.

(** [s.replace(/\s+/g, "-")]: every maximal run of white space becomes one
    dash.  [inRun] tells that the previous character was white space. *)
Fixpoint replaceSpaceRuns (inRun : bool) (s : string) : string :=
  match s with
  | EmptyString => EmptyString
  | String c s' =>
      if isSpace c
      then if inRun then replaceSpaceRuns true s'
           else String dash (replaceSpaceRuns true s')
      else String c (replaceSpaceRuns false s')
  end.

(** [s.replace(/-+/g, "-")]: every maximal run of dashes becomes one dash. *)
Fixpoint collapseDashes (inRun : bool) (s : string) : string :=
  match s with
  | EmptyString => EmptyString
  | String c s' =>
      if Ascii.eqb c dash
      then if inRun then collapseDashes true s'
           else String dash (collapseDashes true s')
      else String c (collapseDashes false s')
  end.

Definition stripLeadingDash (s : string) : string :=
  match s with
  | String c s' => if Ascii.eqb c dash then s' else s
  | EmptyString => EmptyString
  end.

Fixpoint stripTrailingDash (s : string) : string :=
  match s with
  | EmptyString => EmptyString
  | String c EmptyString => if Ascii.eqb c dash then EmptyString else s
  | String c s' => String c (stripTrailingDash s')
  end.

(** [s.replace(/^-|-$/g, "")]: the scan removes a dash at index 0, then a
    dash at the last index of what is left to scan. *)
Definition stripEdgeDashes (s : string) : string :=
  stripTrailingDash (stripLeadingDash s).

End Js.

(** ** Note ids *)

Module NoteId.
Import Js.

(** src/hooks/create-new-note.ts, [slugifySegment] *)
Definition slugifySegment (segment : string) : string :=
  stripEdgeDashes
    (collapseDashes false
       (replaceSpaceRuns false (toLowerCase (trim segment)))).

(** src/hooks/create-new-note.ts, [toSlug]; [filter(Boolean)] keeps the
    non-empty segments. *)
Definition toSlug (trimmed : string) : string :=
  join "/" (List.filter truthy (List.map slugifySegment (split slash trimmed))).

Definition isLower (c : ascii) : bool :=
  let n := nat_of_ascii c in ((97 <=? n) && (n <=? 122))%nat.
Definition isUpper (c : ascii) : bool :=
  let n := nat_of_ascii c in ((65 <=? n) && (n <=? 90))%nat.
Definition isDigit (c : ascii) : bool :=
  let n := nat_of_ascii c in ((48 <=? n) && (n <=? 57))%nat.

Definition segmentChar (c : ascii) : bool :=
  isLower c || isDigit c || Ascii.eqb c dash.

Definition startsWithDash (s : string) : bool :=
  match s with String c _ => Ascii.eqb c dash | EmptyString => false end.

Fixpoint endsWithDash (s : string) : bool :=
  match s with
  | EmptyString => false
  | String c EmptyString => Ascii.eqb c dash
  | String _ s' => endsWithDash s'
  end.

Fixpoint hasDoubleDash (s : string) : bool :=
  match s with
  | EmptyString => false
  | String c s' => (Ascii.eqb c dash && startsWithDash s') || hasDoubleDash s'
  end.

(** One segment of the id grammar: non-empty, only lowercase letters,
    digits and dashes, no dash first or last, no two dashes in a row. *)
Definition isValidSegment (s : string) : bool :=
  truthy s && all_chars segmentChar s
  && negb (startsWithDash s) && negb (endsWithDash s)
  && negb (hasDoubleDash s).

(** Modelled from the spec: [isValidNoteId] of src/utils/note-id.ts, which
    is not among the sources.  True iff the id has at least one segment and
    every [/]-separated segment follows the segment grammar. *)
Definition isValidNoteId (id : string) : bool :=
  forallb isValidSegment (split slash id).

(** hooks/note (src/unnamed/part_000), [getFolderPrefixes]: the joins of the first [i]
    parts, for [i] from 1 to [parts.length - 1]. *)
Definition getFolderPrefixes (noteId : string) : list string :=
  let parts := split slash noteId in
  if (length parts <=? 1)%nat then []
  else List.map (fun i => join "/" (firstn i parts)) (seq 1 (length parts - 1)).

(** What a user may type for [toSlug] to give a valid id: ASCII letters,
    digits, white space, dashes and slashes. *)
Definition slugInputChar (c : ascii) : bool :=
  isLower c || isUpper c || isDigit c || isSpace c
  || Ascii.eqb c dash || Ascii.eqb c slash.

(** The same without the slash: what a piece between slashes holds. *)
Definition pieceChar (c : ascii) : bool :=
  slugInputChar c && negb (Ascii.eqb c slash).

(** What a piece of such input holds once lowercased. *)
Definition loweredChar (c : ascii) : bool :=
  (isLower c || isDigit c || isSpace c || Ascii.eqb c dash)
  && negb (Ascii.eqb c slash).

End NoteId.


(** ** Wikilinks *)

Module Wikilinks.

(** A reference token naming [id] starts here: [[[id]]] or [[[id|alias]]]. *)
Definition linkTo (id content : string) : bool :=
  String.prefix ("[[" ++ id ++ "]]") content
  || String.prefix ("[[" ++ id ++ "|") content.

(** Does [content] hold a reference token that resolves to [id]? *)
Fixpoint references (content id : string) : bool :=
  match content with
  | EmptyString => false
  | String _ rest => linkTo id content || references rest id
  end.

(** Left-to-right scan; after a token naming [oldId] was found, [skip] counts
    the characters of ["[[" ++ oldId] still to pass over. *)
Fixpoint rewriteFrom (skip : nat) (oldId newId content : string) : string :=
  match content with
  | EmptyString => EmptyString
  | String c rest =>
      match skip with
      | S k => rewriteFrom k oldId newId rest
      | O =>
          if linkTo oldId content
          then "[[" ++ newId ++ rewriteFrom (String.length oldId + 1) oldId newId rest
          else String c (rewriteFrom 0 oldId newId rest)
      end
  end.

(** Modelled from the spec: [updateWikilinks] of src/utils/update-wikilinks.ts,
    which is not among the sources.  Every reference token that resolves to
    [oldId] gets [newId] as its id; the alias and all other text are kept. *)
Definition updateWikilinks (fileContent oldId newId : string) : string :=
  rewriteFrom 0 oldId newId fileContent.

End Wikilinks.

(** ** The helpers that hooks/note imports from src/utils *)

Class NoteUtils := {
  isValidNoteId : string -> bool;
  updateWikilinks : string -> string -> string -> string
    (* fileContent, oldId, newId *)
}.

Definition specUtils : NoteUtils :=
  {| isValidNoteId := NoteId.isValidNoteId;
     updateWikilinks := Wikilinks.updateWikilinks |}.

(** ** World state seen by the hooks *)

(** The payload of a [WRITE_FILES] event: storage key to new content, or to
    the tombstone [None] ([null] in the source). *)
Record WriteFiles := {
  wf_markdownFiles : gmap string (option string);
  wf_commitMessage : option string
}.

(** [markdownFilesAtom], [virtualFoldersAtom], and the events handed to
    [send] so far, oldest first. *)
Record World := {
  markdownFiles : gmap string string;
  virtualFolders : list string;
  sent : list WriteFiles
}.

Definition send (e : WriteFiles) (w : World) : World :=
  {| markdownFiles := markdownFiles w;
     virtualFolders := virtualFolders w;
     sent := (sent w ++ [e])%list |}.

Definition setVirtualFolders (f : list string -> list string) (w : World) : World :=
  {| markdownFiles := markdownFiles w;
     virtualFolders := f (virtualFolders w);
     sent := sent w |}.

(** Modelled from the spec: the persistence collaborator behind [send], which
    is not among the sources.  It applies a batch as one unit: a key mapped
    to content is written, a key mapped to a tombstone is deleted, every
    other key is kept. *)
Definition applyBatch (batch : gmap string (option string))
    (files : gmap string string) : gmap string string :=
  merge (fun b f => match b with Some v => v | None => f end) batch files.

Definition storageKey (id : string) : string := id ++ ".md".

(** ** Virtual folder ledger *)

(** The ledger update written inline in [useSaveNote]: drop the folder
    prefixes of the saved id, when there are any. *)
Definition reconcile (savedNoteId : string) (prev : list string) : list string :=
  let folderPrefixes := NoteId.getFolderPrefixes savedNoteId in
  if (0 <? length folderPrefixes)%nat
  then List.filter (fun path => negb (bool_decide (path ∈ folderPrefixes))) prev
  else prev.

(** [useSaveNote], up to the mirror call: [stamp] stands for
    [updateFrontmatterValue] with the current date. *)
Definition saveNote (stamp : string -> string) (id content : string)
    (w : World) : World :=
  let contentWithTimestamp := stamp content in
  let w1 :=
    send {| wf_markdownFiles := {[ storageKey id := Some contentWithTimestamp ]};
            wf_commitMessage := None |} w in
  setVirtualFolders (reconcile id) w1.

(** ** Rename *)

Inductive RenameReason := duplicate | invalid | no_op.

Inductive RenameNoteResult :=
| RenameSuccess
| RenameFailure (reason : RenameReason).

(** [markdownFiles[key]] used as a condition: absent and empty are falsy. *)
Definition truthyEntry (files : gmap string string) (key : string) : bool :=
  match files !! key with
  | Some content => Js.truthy content
  | None => false
  end.

(** [Object.prototype.hasOwnProperty.call(markdownFiles, key)] *)
Definition hasOwnProperty (files : gmap string string) (key : string) : bool :=
  bool_decide (is_Some (files !! key)).

(** The loop of [useRenameNote] over [Object.entries(markdownFiles)]: each
    entry writes at most its own key. *)
Definition renameRewrites {U : NoteUtils} (files : gmap string string)
    (oldName newName : string) : gmap string (option string) :=
  map_imap (fun filepath content =>
    if String.eqb filepath (storageKey oldName) then None
    else
      let newContent := updateWikilinks content oldName newName in
      if String.eqb newContent content then None else Some (Some newContent))
    files.

(** The batch [useRenameNote] builds once its guards have passed. *)
Definition renameBatch {U : NoteUtils} (files : gmap string string)
    (oldName newName content : string) : gmap string (option string) :=
  let oldFilepath := storageKey oldName in
  let newFilepath := storageKey newName in
  let oldFileExists := hasOwnProperty files oldFilepath in
  let updated := renameRewrites files oldName newName in
  let updated :=
    <[ newFilepath := Some (updateWikilinks content oldName newName) ]> updated in
  if oldFileExists then <[ oldFilepath := None ]> updated else updated.

(** [useRenameNote] *)
Definition renameNote {U : NoteUtils} (oldName newName content : string)
    (w : World) : RenameNoteResult * World :=
  let files := markdownFiles w in
  let oldFilepath := storageKey oldName in
  let newFilepath := storageKey newName in
  if negb (Js.truthy oldName) || negb (Js.truthy newName)
     || String.eqb oldName newName
  then (RenameFailure no_op, w)
  else if negb (isValidNoteId newName)
  then (RenameFailure invalid, w)
  else if negb (String.eqb newFilepath oldFilepath) && truthyEntry files newFilepath
  then (RenameFailure duplicate, w)
  else
    let updatedMarkdownFiles := renameBatch files oldName newName content in
    let w' :=
      if (0 <? size updatedMarkdownFiles)%nat
      then send {| wf_markdownFiles := updatedMarkdownFiles;
                   wf_commitMessage :=
                     Some ("Rename note " ++ oldName ++ " to " ++ newName) |} w
      else w in
    (RenameSuccess, w').

(** ** Move *)

Record MovedItem := {
  mv_oldId : string;
  mv_newId : string;
  mv_content : string
}.

Inductive MoveNotesResult :=
| MoveSuccess (moved : nat) (skipped : list string)
| MoveFailure (reason : string).

(** [oldId.includes("/") ? oldId.split("/").pop() : oldId] *)
Definition basename (oldId : string) : string :=
  if Js.includes Js.slash oldId
  then List.last (Js.split Js.slash oldId) EmptyString
  else oldId.

(** [targetFolder ? `${targetFolder}/${basename}` : basename] *)
Definition destinationId (targetFolder oldId : string) : string :=
  if Js.truthy targetFolder then targetFolder ++ "/" ++ basename oldId
  else basename oldId.

(** One turn of the first loop of [useMoveNotesToFolder]; the accumulator is
    the pair of arrays [moved] and [skipped]. *)
Definition moveStep {U : NoteUtils} (files : gmap string string)
    (targetFolder : string) (acc : list MovedItem * list string)
    (oldId : string) : list MovedItem * list string :=
  let '(moved, skipped) := acc in
  let oldFilepath := storageKey oldId in
  match files !! oldFilepath with
  | None => (moved, (skipped ++ [oldId])%list)
  | Some content =>
      let newId := destinationId targetFolder oldId in
      if String.eqb newId oldId then (moved, skipped)
      else if negb (isValidNoteId newId) then (moved, (skipped ++ [oldId])%list)
      else
        let newFilepath := storageKey newId in
        if bool_decide (is_Some (files !! newFilepath))
           && negb (String.eqb newFilepath oldFilepath)
        then (moved, (skipped ++ [oldId])%list)
        else ((moved ++ [ {| mv_oldId := oldId; mv_newId := newId;
                             mv_content := content |} ])%list, skipped)
  end.

Definition moveCollect {U : NoteUtils} (files : gmap string string)
    (noteIds : list string) (targetFolder : string)
    : list MovedItem * list string :=
  fold_left (moveStep files targetFolder) noteIds ([], []).

(** The inner loop: one rewrite per queued move, in queued order. *)
Definition rewriteAll {U : NoteUtils} (moved : list MovedItem) (content : string)
    : string :=
  fold_left (fun newContent m =>
               updateWikilinks newContent (mv_oldId m) (mv_newId m))
            moved content.

(** The second loop, over [Object.entries(markdownFiles)]. *)
Definition moveRewrites {U : NoteUtils} (files : gmap string string)
    (moved : list MovedItem) : gmap string (option string) :=
  map_imap (fun _ content =>
    let newContent := rewriteAll moved content in
    if String.eqb newContent content then None else Some (Some newContent))
    files.

(** The third loop: write each relocated file, tombstone its old key. *)
Definition moveRelocate {U : NoteUtils} (moved : list MovedItem)
    (updated : gmap string (option string)) : gmap string (option string) :=
  fold_left (fun upd m =>
               <[ storageKey (mv_oldId m) := None ]>
                 (<[ storageKey (mv_newId m) :=
                       Some (updateWikilinks (mv_content m) (mv_oldId m) (mv_newId m)) ]>
                    upd))
            moved updated.

Definition moveBatch {U : NoteUtils} (files : gmap string string)
    (moved : list MovedItem) : gmap string (option string) :=
  moveRelocate moved (moveRewrites files moved).

(** The set [folderPrefixesToRemove]. *)
Definition folderPrefixesToRemove (moved : list MovedItem) : gset string :=
  list_to_set (flat_map (fun m => NoteId.getFolderPrefixes (mv_oldId m)) moved).

(** [useMoveNotesToFolder] *)
Definition moveNotesToFolder {U : NoteUtils} (noteIds : list string)
    (targetFolder : string) (w : World) : MoveNotesResult * World :=
  let files := markdownFiles w in
  let '(moved, skipped) := moveCollect files noteIds targetFolder in
  if (length moved =? 0)%nat then (MoveSuccess 0 skipped, w)
  else
    let updatedMarkdownFiles := moveBatch files moved in
    let toRemove := folderPrefixesToRemove moved in
    let w1 :=
      if (0 <? size toRemove)%nat
      then setVirtualFolders
             (List.filter (fun path => negb (bool_decide (path ∈ toRemove)))) w
      else w in
    let w2 :=
      send {| wf_markdownFiles := updatedMarkdownFiles;
              wf_commitMessage :=
                Some ("Move " ++ pretty (length moved) ++ " note(s) to "
                      ++ (if Js.truthy targetFolder then targetFolder else "root")) |}
           w1 in
    (MoveSuccess (length moved) skipped, w2).

(** *** The classification of one input id, in the words of the design *)

Inductive MoveClass := Skipped | Omitted | Queued.

Definition sameClass (a b : MoveClass) : bool :=
  match a, b with
  | Skipped, Skipped | Omitted, Omitted | Queued, Queued => true
  | _, _ => false
  end.

(** The last [/]-delimited segment. *)
Definition lastSegment (id : string) : string :=
  List.last (Js.split Js.slash id) EmptyString.

(** The target folder, a slash and the last segment; the last segment alone
    for the root. *)
Definition relocatedId (targetFolder oldId : string) : string :=
  if String.eqb targetFolder "" then lastSegment oldId
  else targetFolder ++ "/" ++ lastSegment oldId.

(** Absent source: skipped.  New id equal to the old one: omitted.  New id
    invalid, or a different file at the destination key: skipped.
    Otherwise: queued. *)
Definition classify {U : NoteUtils} (files : gmap string string)
    (targetFolder oldId : string) : MoveClass :=
  match files !! storageKey oldId with
  | None => Skipped
  | Some _ =>
      let newId := relocatedId targetFolder oldId in
      if String.eqb newId oldId then Omitted
      else if negb (isValidNoteId newId) then Skipped
      else if bool_decide (is_Some (files !! storageKey newId))
              && negb (String.eqb (storageKey newId) (storageKey oldId))
      then Skipped
      else Queued
  end.

Definition idsOfClass {U : NoteUtils} (files : gmap string string)
    (targetFolder : string) (c : MoveClass) (noteIds : list string)
    : list string :=
  List.filter (fun id => sameClass (classify files targetFolder id) c) noteIds.

(** The queue entry of an id that is moved. *)
Definition queuedItem (files : gmap string string) (targetFolder oldId : string)
    : MovedItem :=
  {| mv_oldId := oldId;
     mv_newId := relocatedId targetFolder oldId;
     mv_content := default EmptyString (files !! storageKey oldId) |}.

(** The world before anything was sent. *)
Definition worldOf (files : gmap string string) (folders : list string) : World :=
  {| markdownFiles := files; virtualFolders := folders; sent := [] |}.

(** ** Tag cloud (components/note-list.tsx, [sortedTagFrequencies]) *)

Module TagCloud.

(** The part of a note the tag cloud reads. *)
Record Note := {
  note_id : string;
  note_tags : list string
}.

(** [frequencyMap.set(tag, (frequencyMap.get(tag) ?? 0) + 1)] on a [Map],
    kept as its entries in insertion order: a known key keeps its place,
    a new key goes last. *)
Fixpoint bump (tag : string) (m : list (string * nat)) : list (string * nat) :=
  match m with
  | [] => [(tag, 1)]
  | (t, n) :: m' =>
      if String.eqb t tag then (t, S n) :: m' else (t, n) :: bump tag m'
  end.

(** [frequencyMap.get(tag) ?? 0] *)
Fixpoint getOr0 (tag : string) (m : list (string * nat)) : nat :=
  match m with
  | [] => 0
  | (t, n) :: m' => if String.eqb t tag then n else getOr0 tag m'
  end.

Definition allTags (childNotes : list Note) : list string :=
  flat_map note_tags childNotes.

Definition frequencyEntries (childNotes : list Note) : list (string * nat) :=
  fold_left (fun m tag => bump tag m) (allTags childNotes) [].

(** First filter: [frequency < childNotes.length]. *)
Definition belowAll (childNotes : list Note) (e : string * nat) : bool :=
  (snd e <? length childNotes)%nat.

Definition childTags (frequencyEntries : list (string * nat)) (tag : string)
    : list (string * nat) :=
  List.filter (fun e => negb (String.eqb (fst e) tag) && Js.startsWith (fst e) tag)
              frequencyEntries.

(** Second filter: a tag with child tags stays unless all of them have its
    frequency. *)
Definition keepsParent (frequencyEntries : list (string * nat))
    (e : string * nat) : bool :=
  let children := childTags frequencyEntries (fst e) in
  if (length children =? 0)%nat then true
  else negb (forallb (fun o => (snd o =? snd e)%nat) children).

(** The comparator passed to [sort]. *)
Definition byFrequencyDesc (a b : string * nat) : Z :=
  (Z.of_nat (snd b) - Z.of_nat (snd a))%Z.

(** [Array.prototype.sort] is stable: an element moves behind another one
    only when the comparator is positive on the pair. *)
Fixpoint insertBy {A} (cmp : A -> A -> Z) (e : A) (l : list A) : list A :=
  match l with
  | [] => [e]
  | x :: l' => if (0 <? cmp e x)%Z then x :: insertBy cmp e l' else e :: l
  end.

Definition sortBy {A} (cmp : A -> A -> Z) (l : list A) : list A :=
  fold_right (insertBy cmp) [] l.

(** The two [filter] calls, before [sort]. *)
Definition prunedTagFrequencies (childNotes : list Note) : list (string * nat) :=
  let frequencyEntries := frequencyEntries childNotes in
  List.filter (keepsParent frequencyEntries)
    (List.filter (belowAll childNotes) frequencyEntries).

Definition sortedTagFrequencies (childNotes : list Note) : list (string * nat) :=
  sortBy byFrequencyDesc (prunedTagFrequencies childNotes).

(** How many notes of the result set carry [tag]. *)
Definition carriers (tag : string) (childNotes : list Note) : nat :=
  length (List.filter (fun n => bool_decide (tag ∈ note_tags n)) childNotes).

(** How often [tag] occurs in a flattened tag list. *)
Definition occurrences (tag : string) (tags : list string) : nat :=
  length (List.filter (String.eqb tag) tags).

(** A frequency map has distinct keys and positive counts. *)
Definition wellFormed (m : list (string * nat)) : Prop :=
  List.NoDup (List.map fst m) /\ List.Forall (fun e => 0 < snd e) m.

(** Descending frequency, the order [sort] establishes. *)
Definition descending (a b : string * nat) : Prop := snd b <= snd a.

End TagCloud.

(** ** Folder browsing (components/note-list.tsx) *)

Module Folders.

(** [s.slice(n)] for a non-negative [n]. *)
Fixpoint slice (n : nat) (s : string) : string :=
  match n, s with
  | O, _ => s
  | S k, String _ s' => slice k s'
  | S _, EmptyString => EmptyString
  end.

(** [s.slice(0, n)] *)
Fixpoint sliceTo (n : nat) (s : string) : string :=
  match n, s with
  | O, _ => EmptyString
  | S k, String c s' => String c (sliceTo k s')
  | S _, EmptyString => EmptyString
  end.

(** [isDirectChildNote] *)
Definition isDirectChildNote (id currentFolder : string) : bool :=
  if negb (Js.truthy currentFolder) then negb (Js.includes Js.slash id)
  else if negb (Js.startsWith id (currentFolder ++ "/")) then false
  else
    let rest := slice (String.length currentFolder + 1) id in
    negb (Js.includes Js.slash rest).

(** [names.add(x)] on a [Set], kept as its elements in insertion order. *)
Definition setAdd (x : string) (names : list string) : list string :=
  if bool_decide (x ∈ names) then names else (names ++ [x])%list.

(** [s.split("/")[0]] *)
Definition firstSegment (s : string) : string :=
  List.hd EmptyString (Js.split Js.slash s).

(** One turn of the loop of [getChildFolderNamesFromNotes]. *)
Definition childFolderFromNote (currentFolder : string) (names : list string)
    (id : string) : list string :=
  if negb (Js.truthy currentFolder)
  then if Js.includes Js.slash id then setAdd (firstSegment id) names else names
  else if negb (Js.startsWith id (currentFolder ++ "/")) then names
  else
    let rest := slice (String.length currentFolder + 1) id in
    if Js.includes Js.slash rest then setAdd (firstSegment rest) names else names.

(** [getChildFolderNamesFromNotes]; [noteIds] is [notes.keys()]. *)
Definition getChildFolderNamesFromNotes (noteIds : list string)
    (currentFolder : string) : list string :=
  fold_left (childFolderFromNote currentFolder) noteIds [].

(** One turn of the loop of [getChildFolderNamesFromVirtual]. *)
Definition childFolderFromVirtual (currentFolder : string) (names : list string)
    (path : string) : list string :=
  if negb (Js.truthy currentFolder) then setAdd (firstSegment path) names
  else if negb (Js.startsWith path (currentFolder ++ "/")) then names
  else
    let rest := slice (String.length currentFolder + 1) path in
    setAdd (firstSegment rest) names.

(** [getChildFolderNamesFromVirtual] *)
Definition getChildFolderNamesFromVirtual (virtualFolders : list string)
    (currentFolder : string) : list string :=
  fold_left (childFolderFromVirtual currentFolder) virtualFolders [].

(** The inner loop of [getAllFolderPaths] for one note id. *)
Definition addFolderPrefixes (paths : list string) (id : string) : list string :=
  let parts := Js.split Js.slash id in
  fold_left (fun paths i => setAdd (Js.join "/" (firstn i parts)) paths)
            (seq 1 (length parts - 1)) paths.

(** [getAllFolderPaths]; [localeCompare] is the comparator handed to [sort]. *)
Definition getAllFolderPaths (localeCompare : string -> string -> Z)
    (noteIds virtualFolders : list string) : list string :=
  let paths := fold_left addFolderPrefixes noteIds [] in
  let paths := fold_left (fun paths path => setAdd path paths) virtualFolders paths in
  TagCloud.sortBy localeCompare paths.

(** [childFolderNames] of [NoteList]; [folder] is [None] outside the folder
    view. *)
Definition childFolderNames (localeCompare : string -> string -> Z)
    (noteIds virtualFolders : list string) (folder : option string)
    : list string :=
  match folder with
  | None => []
  | Some folder =>
      let fromNotes := getChildFolderNamesFromNotes noteIds folder in
      let fromVirtual := getChildFolderNamesFromVirtual virtualFolders folder in
      TagCloud.sortBy localeCompare
        (fold_left (fun names x => setAdd x names) (fromNotes ++ fromVirtual)%list [])
  end.

(** [folder ? `${folder}/${name}` : name], the path a folder row opens. *)
Definition childFolderPath (folder name : string) : string :=
  if Js.truthy folder then folder ++ "/" ++ name else name.

(** [folderSegments] of [NoteList] *)
Definition folderSegments (folder : option string) : list string :=
  match folder with
  | Some folder =>
      if negb (String.eqb folder "")
      then List.filter Js.truthy (Js.split Js.slash folder)
      else []
  | None => []
  end.

(** The [pathUpToHere] of every breadcrumb button, in order. *)
Definition breadcrumbPaths (folder : option string) : list string :=
  let segments := folderSegments folder in
  List.map (fun index => Js.join "/" (firstn (index + 1) segments))
           (seq 0 (length segments)).

(** *** Tag pills *)

(** [s.indexOf(needle)]: [None] stands for [-1]. *)
Fixpoint indexOf (needle s : string) : option nat :=
  if String.prefix needle s then Some 0
  else match s with
       | EmptyString => None
       | String _ s' => option_map S (indexOf needle s')
       end.

(** [`${exclude ? "-" : ""}tag:${values.join(",")}`] *)
Definition tagQualifierText (exclude : bool) (values : list string) : string :=
  (if exclude then "-" else "") ++ "tag:" ++ Js.join "," values.

(** The click handler of a tag filter pill: the query handed to
    [onQueryChange], or [None] when the handler returns early. *)
Definition removeTagFilter (query : string) (exclude : bool)
    (values : list string) : option string :=
  let text := tagQualifierText exclude values in
  match indexOf text query with
  | None => None
  | Some index =>
      let newQuery :=
        sliceTo index query
        ++ Js.trimStart (slice (index + String.length text) query) in
      Some (Js.trim newQuery)
  end.

(** The click handler of a tag frequency pill. *)
Definition addTagQualifier (query : string) (shiftKey : bool) (tag : string)
    : string :=
  let qualifier := (if shiftKey then "-" else "") ++ "tag:" ++ tag in
  if Js.truthy query then query ++ " " ++ qualifier else qualifier.

End Folders.

(** ** New folders (hooks/create-new-note.ts, [useCreateNewFolder]) *)

Inductive FolderOutcome :=
| FolderDismissed
| FolderAlerted (message : string)
| FolderOpened (folderPath : string).

(** The update handed to [setVirtualFolders]. *)
Definition declareFolder (localeCompare : string -> string -> Z)
    (folderPath : string) (prev : list string) : list string :=
  if bool_decide (folderPath ∈ prev) then prev
  else TagCloud.sortBy localeCompare (prev ++ [folderPath])%list.

Definition doubleQuote : string := String (ascii_of_nat 34) EmptyString.

(** [useCreateNewFolder]: [userInput] is what [window.prompt] returned,
    [None] for a cancelled prompt. *)
Definition createNewFolder {U : NoteUtils} (localeCompare : string -> string -> Z)
    (currentFolder : option string) (userInput : option string) (w : World)
    : FolderOutcome * World :=
  match userInput with
  | None => (FolderDismissed, w)
  | Some userInput =>
      let trimmed := Js.trim userInput in
      if negb (Js.truthy trimmed) then (FolderDismissed, w)
      else
        let slug := NoteId.toSlug trimmed in
        if negb (Js.truthy slug) then (FolderDismissed, w)
        else
          let folderPath :=
            match currentFolder with
            | Some folder =>
                if Js.truthy folder then folder ++ "/" ++ slug else slug
            | None => slug
            end in
          if negb (isValidNoteId folderPath)
          then (FolderAlerted (doubleQuote ++ folderPath ++ doubleQuote
                               ++ " is not a valid folder name."), w)
          else (FolderOpened folderPath,
                setVirtualFolders (declareFolder localeCompare folderPath) w)
  end.

(** ** Backlink selector (hooks/note, [shallowEqualBacklinks]) *)

(** The length test and the index loop; the identity shortcut [a === b]
    returns what the loop returns on one and the same array. *)
Definition shallowEqualBacklinks (a b : list string) : bool :=
  if negb (length a =? length b)%nat then false
  else forallb (fun i => String.eqb (nth i a EmptyString) (nth i b EmptyString))
               (seq 0 (length a)).

(** ** Order of the ledger *)

(** [a] may stand before [b] in an array sorted with [localeCompare]. *)
Definition inOrder (localeCompare : string -> string -> Z) (a b : string) : Prop :=
  (localeCompare a b <= 0)%Z.

(** What [sort] asks of its comparator: a positive answer one way round is
    not positive the other way round, and being in order is transitive. *)
Definition consistentComparator (localeCompare : string -> string -> Z) : Prop :=
  (forall a b, (0 < localeCompare a b)%Z -> (localeCompare b a <= 0)%Z)
  /\ (forall a b c, inOrder localeCompare a b -> inOrder localeCompare b c ->
                    inOrder localeCompare a c).

(** The ledger as [useCreateNewFolder] leaves it: sorted, without repeats. *)
Definition ledgerInOrder (localeCompare : string -> string -> Z)
    (ledger : list string) : Prop :=
  StronglySorted (inOrder localeCompare) ledger /\ List.NoDup ledger.

(** A comparator to run the ledger with: shorter paths first. *)
Definition shorterFirst (a b : string) : Z :=
  (Z.of_nat (String.length a) - Z.of_nat (String.length b))%Z.

(** ** The shape of a slug *)

(** A character a slugified segment may hold: no white space, no slash,
    and left alone by [toLowerCase]. *)
Definition sluggedChar (c : ascii) : bool :=
  negb (Js.isSpace c) && Ascii.eqb (Js.lowerChar c) c
  && negb (Ascii.eqb c Js.slash).

(** A segment as [slugifySegment] leaves it when it is not empty. *)
Definition isSlugSegment (s : string) : bool :=
  Js.truthy s && Js.all_chars sluggedChar s
  && negb (NoteId.startsWithDash s) && negb (NoteId.endsWithDash s)
  && negb (NoteId.hasDoubleDash s).

(** No space character, as a tag must be for its qualifier to be one
    token of the query. *)
Definition notBlank (c : ascii) : bool := negb (Ascii.eqb c " ").

(** * Properties *)

(** ** Worked examples *)

Example toSlug_projects : NoteId.toSlug "Projects / Foo" = "projects/foo".
Proof. reflexivity. Qed.

Example toSlug_messy : NoteId.toSlug " --My   Note-- //x/ " = "my-note/x".
Proof. reflexivity. Qed.

Example toSlug_keeps_punctuation : NoteId.toSlug "Hello, World!" = "hello,-world!".
Proof. reflexivity. Qed.

Example getFolderPrefixes_abc : NoteId.getFolderPrefixes "a/b/c" = ["a"; "a/b"].
Proof. reflexivity. Qed.

Example updateWikilinks_alias :
  Wikilinks.updateWikilinks "see [[notes/draft|My Draft]] and [[notes/draft]]."
                            "notes/draft" "notes/final"
  = "see [[notes/final|My Draft]] and [[notes/final]].".
Proof. reflexivity. Qed.

Example updateWikilinks_no_partial :
  Wikilinks.updateWikilinks "[[a/b]] [[a/bc]]" "a/bc" "z" = "[[a/b]] [[z]]".
Proof. reflexivity. Qed.

Example tags_all_shared :
  TagCloud.sortedTagFrequencies
    [ {| TagCloud.note_id := "n1"; TagCloud.note_tags := ["x"; "x/y"] |};
      {| TagCloud.note_id := "n2"; TagCloud.note_tags := ["x"; "x/y"] |} ]
  = [].
Proof. reflexivity. Qed.

Example tags_sorted :
  TagCloud.sortedTagFrequencies
    [ {| TagCloud.note_id := "n1"; TagCloud.note_tags := ["a"; "b"] |};
      {| TagCloud.note_id := "n2"; TagCloud.note_tags := ["c"; "b"] |};
      {| TagCloud.note_id := "n3"; TagCloud.note_tags := ["d"] |} ]
  = [("b", 2); ("a", 1); ("c", 1); ("d", 1)].
Proof. reflexivity. Qed.

(** ** Facts about the string primitives *)

Section JsFacts.
Import Js.

Lemma all_chars_impl (p q : ascii -> bool) s :
  (forall c, p c = true -> q c = true) ->
  all_chars p s = true -> all_chars q s = true.
Proof.
  intros Hpq. induction s as [|c s IH]; simpl; [reflexivity|].
  intros [Hc Hs]%andb_prop. rewrite (Hpq _ Hc), (IH Hs). reflexivity.
Qed.

Lemma split_nonempty sep s : split sep s <> [].
Proof.
  destruct s as [|c s]; simpl; [discriminate|].
  destruct (Ascii.eqb c sep); [discriminate|].
  destruct (split sep s); discriminate.
Qed.

Lemma split_all_chars p sep s :
  all_chars p s = true -> Forall (fun t => all_chars p t = true) (split sep s).
Proof.
  induction s as [|c s IH]; simpl.
  - intros _. constructor; [reflexivity|constructor].
  - intros [Hc Hs]%andb_prop. specialize (IH Hs).
    destruct (Ascii.eqb c sep).
    + constructor; [reflexivity|assumption].
    + destruct (split sep s) as [|h t].
      * constructor; [simpl; rewrite Hc; reflexivity|constructor].
      * inversion IH; subst. constructor; [simpl; rewrite Hc; assumption|assumption].
Qed.

Lemma split_no_sep sep s :
  Forall (fun t => includes sep t = false) (split sep s).
Proof.
  induction s as [|c s IH]; simpl.
  - constructor; [reflexivity|constructor].
  - destruct (Ascii.eqb c sep) eqn:E.
    + constructor; [reflexivity|assumption].
    + destruct (split sep s) as [|h t].
      * constructor; [simpl; rewrite E; reflexivity|constructor].
      * inversion IH; subst. constructor; [simpl; rewrite E; assumption|assumption].
Qed.

Lemma split_cons_no_sep sep c s :
  Ascii.eqb c sep = false ->
  split sep (String c s) =
    match split sep s with h :: t => String c h :: t | [] => [String c EmptyString] end.
Proof. intros E. simpl. rewrite E. reflexivity. Qed.

Lemma split_app_sep sep (a b : string) :
  includes sep a = false ->
  split sep (a ++ String sep b) = a :: split sep b.
Proof.
  induction a as [|c a IH]; simpl.
  - intros _. rewrite Ascii.eqb_refl. reflexivity.
  - intros [E Ha]%orb_false_elim. rewrite E, (IH Ha). reflexivity.
Qed.

Lemma split_no_sep_single sep a :
  includes sep a = false -> split sep a = [a].
Proof.
  induction a as [|c a IH]; simpl; [reflexivity|].
  intros [E Ha]%orb_false_elim. rewrite E, (IH Ha). reflexivity.
Qed.

(** [split] undoes [join] on a non-empty array of separator-free parts. *)
Lemma split_join parts :
  parts <> [] ->
  Forall (fun t => includes slash t = false) parts ->
  split slash (join "/" parts) = parts.
Proof.
  induction parts as [|a parts IH]; [congruence|].
  intros _ Hall. inversion Hall as [|? ? Ha Hparts]; subst.
  destruct parts as [|b parts].
  - simpl. apply split_no_sep_single, Ha.
  - change (join "/" (a :: b :: parts))
      with (a ++ String slash (join "/" (b :: parts))).
    rewrite split_app_sep by exact Ha.
    rewrite IH; [reflexivity|discriminate|assumption].
Qed.

Lemma trimStart_all_chars p s :
  all_chars p s = true -> all_chars p (trimStart s) = true.
Proof.
  induction s as [|c s IH]; simpl; [reflexivity|].
  intros H. destruct (isSpace c); [|exact H].
  apply andb_prop in H as [_ H]. auto.
Qed.

Lemma trimEnd_all_chars p s :
  all_chars p s = true -> all_chars p (trimEnd s) = true.
Proof.
  induction s as [|c s IH]; simpl; [reflexivity|].
  intros [Hc Hs]%andb_prop. specialize (IH Hs).
  destruct (trimEnd s) as [|d r].
  - destruct (isSpace c); simpl; [reflexivity|rewrite Hc; reflexivity].
  - simpl in *. rewrite Hc. exact IH.
Qed.

Lemma toLowerCase_all_chars (p q : ascii -> bool) s :
  (forall c, p c = true -> q (lowerChar c) = true) ->
  all_chars p s = true -> all_chars q (toLowerCase s) = true.
Proof.
  intros Hpq. induction s as [|c s IH]; simpl; [reflexivity|].
  intros [Hc Hs]%andb_prop. rewrite (Hpq _ Hc), (IH Hs). reflexivity.
Qed.

Lemma replaceSpaceRuns_all_chars (p q : ascii -> bool) b s :
  q dash = true ->
  (forall c, p c = true -> isSpace c = false -> q c = true) ->
  all_chars p s = true -> all_chars q (replaceSpaceRuns b s) = true.
Proof.
  intros Hd Hpq. revert b. induction s as [|c s IH]; intros b; simpl; [reflexivity|].
  intros [Hc Hs]%andb_prop.
  destruct (isSpace c) eqn:E.
  - destruct b; simpl; [|rewrite Hd; simpl]; auto.
  - simpl. rewrite (Hpq _ Hc E). simpl. auto.
Qed.

Lemma collapseDashes_all_chars p b s :
  all_chars p s = true -> all_chars p (collapseDashes b s) = true.
Proof.
  revert b. induction s as [|c s IH]; intros b; simpl; [reflexivity|].
  intros [Hc Hs]%andb_prop.
  destruct (Ascii.eqb c dash) eqn:E.
  - apply Ascii.eqb_eq in E; subst c.
    destruct b; simpl; [|rewrite Hc; simpl]; auto.
  - simpl. rewrite Hc. simpl. auto.
Qed.

Lemma stripLeadingDash_all_chars p s :
  all_chars p s = true -> all_chars p (stripLeadingDash s) = true.
Proof.
  destruct s as [|c s]; simpl; [reflexivity|].
  intros H. destruct (Ascii.eqb c dash); [|exact H].
  apply andb_prop in H as [_ H]. exact H.
Qed.

Lemma stripTrailingDash_all_chars p s :
  all_chars p s = true -> all_chars p (stripTrailingDash s) = true.
Proof.
  induction s as [|c s IH]; [reflexivity|].
  intros H. pose proof H as [Hc Hs]%andb_prop.
  destruct s as [|d s].
  - simpl. destruct (Ascii.eqb c dash); [reflexivity|exact H].
  - change (stripTrailingDash (String c (String d s)))
      with (String c (stripTrailingDash (String d s))).
    simpl all_chars at 1. rewrite Hc. apply IH, Hs.
Qed.

Lemma string_append_assoc (a b c : string) : (a ++ b) ++ c = a ++ (b ++ c).
Proof.
  induction a as [|x a IH]; [reflexivity|].
  change (String x ((a ++ b) ++ c) = String x (a ++ (b ++ c))). congruence.
Qed.

Lemma join_cons a b parts :
  join "/" (a :: b :: parts) = a ++ String slash (join "/" (b :: parts)).
Proof. reflexivity. Qed.

(** [join] undoes [split]. *)
Lemma join_split s : join "/" (split slash s) = s.
Proof.
  induction s as [|c s IH]; [reflexivity|]. cbn [split].
  pose proof (split_nonempty slash s) as Hne.
  destruct (Ascii.eqb_spec c slash) as [->|_].
  - destruct (split slash s) as [|h t]; [congruence|].
    rewrite join_cons, IH. reflexivity.
  - destruct (split slash s) as [|h [|h' t]]; [congruence| |].
    + cbn in IH. subst h. reflexivity.
    + rewrite join_cons in *. rewrite <- IH. reflexivity.
Qed.

Lemma split_app (a b : string) :
  split slash (a ++ String slash b) = (split slash a ++ split slash b)%list.
Proof.
  induction a as [|c a IH]; simpl.
  - reflexivity.
  - rewrite IH. pose proof (split_nonempty slash a) as Hne.
    destruct (Ascii.eqb c slash); [reflexivity|].
    destruct (split slash a) as [|h t]; [congruence|reflexivity].
Qed.

Lemma join_app (l1 l2 : list string) :
  l1 <> [] -> l2 <> [] ->
  join "/" (l1 ++ l2) = join "/" l1 ++ String slash (join "/" l2).
Proof.
  intros H1 H2. induction l1 as [|a l1 IH]; [congruence|].
  destruct l1 as [|b l1].
  - destruct l2 as [|c l2]; [congruence|]. reflexivity.
  - change (((a :: b :: l1) ++ l2)%list) with (a :: b :: (l1 ++ l2)%list).
    rewrite !join_cons.
    change (b :: (l1 ++ l2)%list) with (((b :: l1) ++ l2)%list).
    rewrite IH by discriminate.
    symmetry. apply string_append_assoc.
Qed.

End JsFacts.

(** ** Slugs (C7) *)

Section SlugFacts.
Import Js NoteId.

Local Ltac by_cases_on_char c :=
  destruct c as [[] [] [] [] [] [] [] []]; vm_compute; intros; congruence.

Lemma lowerChar_piece c : pieceChar c = true -> loweredChar (lowerChar c) = true.
Proof. by_cases_on_char c. Qed.

Lemma lowered_not_space c :
  loweredChar c = true -> isSpace c = false -> segmentChar c = true.
Proof. by_cases_on_char c. Qed.

Lemma segmentChar_not_slash c : segmentChar c = true -> Ascii.eqb c slash = false.
Proof. by_cases_on_char c. Qed.

Lemma all_chars_without sep p s :
  all_chars p s = true -> includes sep s = false ->
  all_chars (fun c => p c && negb (Ascii.eqb c sep)) s = true.
Proof.
  induction s as [|c s IH]; simpl; [reflexivity|].
  intros [Hc Hs]%andb_prop [E Hi]%orb_false_elim.
  rewrite Hc, E, (IH Hs Hi). reflexivity.
Qed.

Lemma segment_no_slash s :
  all_chars segmentChar s = true -> includes slash s = false.
Proof.
  induction s as [|c s IH]; simpl; [reflexivity|].
  intros [Hc Hs]%andb_prop.
  rewrite (segmentChar_not_slash _ Hc), (IH Hs). reflexivity.
Qed.

Lemma collapseDashes_shape b s :
  hasDoubleDash (collapseDashes b s) = false
  /\ (b = true -> startsWithDash (collapseDashes b s) = false).
Proof.
  revert b. induction s as [|c s IH]; intros b; simpl; [split; reflexivity|].
  destruct (Ascii.eqb c dash) eqn:E.
  - destruct (IH true) as [Hdd Hsw]. destruct b.
    + split; auto.
    + split; [|discriminate]. simpl. rewrite Hdd, (Hsw eq_refl). reflexivity.
  - destruct (IH false) as [Hdd _]. split; simpl.
    + rewrite E, Hdd. reflexivity.
    + intros _. exact E.
Qed.

Lemma stripLeadingDash_shape s :
  hasDoubleDash s = false ->
  hasDoubleDash (stripLeadingDash s) = false
  /\ startsWithDash (stripLeadingDash s) = false.
Proof.
  destruct s as [|c s]; simpl; [split; reflexivity|].
  destruct (Ascii.eqb c dash) eqn:E; simpl.
  - intros [H1 H2]%orb_false_elim. split; assumption.
  - intros H. rewrite E. simpl in H. split; [exact H|reflexivity].
Qed.

Lemma stripTrailingDash_cons2 c d s :
  stripTrailingDash (String c (String d s))
  = String c (stripTrailingDash (String d s)).
Proof. reflexivity. Qed.

Lemma stripTrailingDash_empty s :
  stripTrailingDash s = EmptyString ->
  s = EmptyString \/ s = String dash EmptyString.
Proof.
  destruct s as [|c [|d s]]; [left; reflexivity| |].
  - simpl. destruct (Ascii.eqb c dash) eqn:E; [|discriminate].
    apply Ascii.eqb_eq in E. subst. right; reflexivity.
  - rewrite stripTrailingDash_cons2. discriminate.
Qed.

Lemma stripTrailingDash_head s :
  startsWithDash s = false -> startsWithDash (stripTrailingDash s) = false.
Proof.
  destruct s as [|c [|d s]]; [reflexivity| |].
  - simpl. intros E. rewrite E. exact E.
  - rewrite stripTrailingDash_cons2. exact (fun H => H).
Qed.

Lemma stripTrailingDash_shape s :
  hasDoubleDash s = false ->
  hasDoubleDash (stripTrailingDash s) = false
  /\ endsWithDash (stripTrailingDash s) = false.
Proof.
  induction s as [|c s IH]; [split; reflexivity|].
  destruct s as [|d s].
  - simpl. destruct (Ascii.eqb c dash) eqn:E; simpl; [split; reflexivity|].
    rewrite E. split; reflexivity.
  - rewrite stripTrailingDash_cons2.
    intros H. change (hasDoubleDash (String c (String d s)))
      with ((Ascii.eqb c dash && startsWithDash (String d s))
            || hasDoubleDash (String d s)) in H.
    apply orb_false_elim in H as [Hhead Htail].
    destruct (IH Htail) as [IHdd IHend].
    destruct (stripTrailingDash (String d s)) as [|e r] eqn:Er.
    + apply stripTrailingDash_empty in Er as [Er|Er]; [discriminate|].
      injection Er as -> ->. simpl in Hhead. rewrite andb_true_r in Hhead.
      simpl. rewrite Hhead. split; reflexivity.
    + split.
      * change (hasDoubleDash (String c (String e r)))
          with ((Ascii.eqb c dash && startsWithDash (String e r))
                || hasDoubleDash (String e r)).
        rewrite IHdd, orb_false_r.
        destruct (Ascii.eqb c dash); [|reflexivity]. simpl in Hhead.
        assert (Hd : startsWithDash (String d s) = false) by exact Hhead.
        apply stripTrailingDash_head in Hd. rewrite Er in Hd. exact Hd.
      * exact IHend.
Qed.

(** A non-empty slugified piece of plain input follows the segment grammar. *)
Lemma slugifySegment_valid s :
  all_chars pieceChar s = true ->
  truthy (slugifySegment s) = true ->
  isValidSegment (slugifySegment s) = true.
Proof.
  intros Hs Hne. unfold isValidSegment. rewrite Hne. unfold slugifySegment, stripEdgeDashes in *.
  set (t := collapseDashes false (replaceSpaceRuns false (toLowerCase (trim s)))) in *.
  assert (Ht : all_chars segmentChar t = true).
  { apply collapseDashes_all_chars.
    apply replaceSpaceRuns_all_chars with (p := loweredChar);
      [reflexivity|exact lowered_not_space|].
    apply toLowerCase_all_chars with (p := pieceChar); [exact lowerChar_piece|].
    apply trimEnd_all_chars, trimStart_all_chars, Hs. }
  destruct (collapseDashes_shape false (replaceSpaceRuns false (toLowerCase (trim s))))
    as [Hdd _]. fold t in Hdd.
  destruct (stripLeadingDash_shape t Hdd) as [Hdd1 Hsw1].
  destruct (stripTrailingDash_shape _ Hdd1) as [Hdd2 Hend2].
  rewrite stripTrailingDash_all_chars by (apply stripLeadingDash_all_chars, Ht).
  rewrite (stripTrailingDash_head _ Hsw1), Hend2, Hdd2. reflexivity.
Qed.

Lemma slugifySegment_chars s :
  all_chars pieceChar s = true ->
  all_chars segmentChar (slugifySegment s) = true.
Proof.
  intros Hs. unfold slugifySegment, stripEdgeDashes.
  apply stripTrailingDash_all_chars, stripLeadingDash_all_chars,
    collapseDashes_all_chars.
  apply replaceSpaceRuns_all_chars with (p := loweredChar);
    [reflexivity|exact lowered_not_space|].
  apply toLowerCase_all_chars with (p := pieceChar); [exact lowerChar_piece|].
  apply trimEnd_all_chars, trimStart_all_chars, Hs.
Qed.

Lemma slug_segments_valid pieces :
  Forall (fun t => all_chars pieceChar t = true) pieces ->
  Forall (fun t => isValidSegment t = true /\ includes slash t = false)
         (List.filter truthy (List.map slugifySegment pieces)).
Proof.
  induction 1 as [|p pieces Hp _ IH]; simpl; [constructor|].
  destruct (truthy (slugifySegment p)) eqn:E; [|exact IH].
  constructor; [|exact IH]. split.
  - apply slugifySegment_valid; assumption.
  - apply segment_no_slash, slugifySegment_chars, Hp.
Qed.

Lemma split_pieces x :
  all_chars slugInputChar x = true ->
  Forall (fun t => all_chars pieceChar t = true) (split slash x).
Proof.
  intros Hx. pose proof (split_all_chars _ slash _ Hx) as H1.
  pose proof (split_no_sep slash x) as H2.
  induction H1 as [|t l Ht _ IH]; [constructor|].
  inversion H2; subst. constructor; [|auto].
  apply (all_chars_without slash slugInputChar); assumption.
Qed.

(** C7, amended: on input made only of ASCII letters, digits, white space,
    dashes and slashes, a non-empty [toSlug x] is a valid note id: each of
    its [/]-separated segments is non-empty, holds only lowercase letters,
    digits and dashes, has no dash first or last and no two dashes in a
    row. *)
Theorem toSlug_valid_on_plain_input x :
  all_chars slugInputChar x = true ->
  toSlug x <> EmptyString ->
  NoteId.isValidNoteId (toSlug x) = true
  /\ Forall (fun seg => isValidSegment seg = true) (split slash (toSlug x)).
Proof.
  intros Hx Hne. unfold toSlug in *.
  pose proof (slug_segments_valid _ (split_pieces x Hx)) as Hsegs.
  set (segs := List.filter truthy (List.map slugifySegment (split slash x))) in *.
  assert (Hsplit : split slash (join "/" segs) = segs).
  { apply split_join.
    - intros ->. apply Hne. reflexivity.
    - eapply List.Forall_impl; [|exact Hsegs]. intros t [_ Ht]. exact Ht. }
  assert (Hall : Forall (fun seg => isValidSegment seg = true) segs).
  { eapply List.Forall_impl; [|exact Hsegs]. intros t [Ht _]. exact Ht. }
  unfold NoteId.isValidNoteId. rewrite Hsplit. split; [|exact Hall].
  apply List.forallb_forall. intros seg Hin.
  rewrite List.Forall_forall in Hall. apply Hall, Hin.
Qed.

Lemma toSlug_valid_on_plain_input_witness :
  all_chars slugInputChar " My  Projects / Foo-2 " = true
  /\ toSlug " My  Projects / Foo-2 " = "my-projects/foo-2"
  /\ NoteId.isValidNoteId (toSlug " My  Projects / Foo-2 ") = true.
Proof.
  split; [reflexivity|]. split; [reflexivity|].
  apply (toSlug_valid_on_plain_input " My  Projects / Foo-2 ");
    [reflexivity|discriminate].
Defined.

(** C7 as stated fails: [toSlug] keeps punctuation, so a non-empty slug
    need not be a valid id. *)
Lemma toSlug_not_always_valid :
  toSlug "a!" = "a!" /\ toSlug "a!" <> EmptyString
  /\ NoteId.isValidNoteId (toSlug "a!") = false.
Proof. split; [reflexivity|]. split; [discriminate|reflexivity]. Qed.

End SlugFacts.

(** ** Tag frequencies (C8, C9) *)

Section TagFacts.
Import TagCloud.

Lemma getOr0_bump tag t m :
  getOr0 t (bump tag m) = if String.eqb tag t then S (getOr0 t m) else getOr0 t m.
Proof.
  induction m as [|[k n] m IH]; simpl.
  - reflexivity.
  - destruct (String.eqb_spec k tag) as [->|Hk]; simpl.
    + destruct (String.eqb_spec tag t); reflexivity.
    + rewrite IH. destruct (String.eqb_spec k t) as [->|Hkt]; [|reflexivity].
      destruct (String.eqb_spec tag t); [congruence|reflexivity].
Qed.

Lemma getOr0_frequencies t tags m :
  getOr0 t (fold_left (fun m tag => bump tag m) tags m)
  = (occurrences t tags + getOr0 t m)%nat.
Proof.
  revert m. induction tags as [|tag tags IH]; intros m; simpl; [reflexivity|].
  rewrite IH, getOr0_bump. unfold occurrences. simpl.
  rewrite (String.eqb_sym t tag).
  destruct (String.eqb tag t); simpl; lia.
Qed.

Lemma keys_bump tag m :
  List.map fst (bump tag m)
  = if bool_decide (tag ∈ List.map fst m) then List.map fst m
    else (List.map fst m ++ [tag])%list.
Proof.
  induction m as [|[k n] m IH].
  - rewrite bool_decide_eq_false_2 by apply not_elem_of_nil. reflexivity.
  - cbn [bump List.map fst]. destruct (String.eqb_spec k tag) as [->|Hk].
    + rewrite bool_decide_eq_true_2 by apply list_elem_of_here. reflexivity.
    + cbn [List.map fst]. rewrite IH.
      destruct (decide (tag ∈ List.map fst m)) as [E|E].
      * rewrite !bool_decide_eq_true_2; [reflexivity|by apply list_elem_of_further|done].
      * rewrite !bool_decide_eq_false_2; [reflexivity| |done].
        intros [?|?]%elem_of_cons; congruence.
Qed.

Lemma wellFormed_bump tag m : wellFormed m -> wellFormed (bump tag m).
Proof.
  intros [Hnd Hpos]. split.
  - rewrite keys_bump. case_bool_decide as E; [exact Hnd|].
    apply NoDup_ListNoDup. apply NoDup_ListNoDup in Hnd.
    apply NoDup_app. split; [exact Hnd|]. split.
    + intros x Hx ->%list_elem_of_singleton. exact (E Hx).
    + apply NoDup_singleton.
  - clear Hnd. induction m as [|[k n] m IH]; simpl.
    + constructor; [simpl; lia|constructor].
    + inversion Hpos; subst. destruct (String.eqb k tag).
      * constructor; [simpl; lia|assumption].
      * constructor; [assumption|auto].
Qed.

Lemma wellFormed_frequencies tags m :
  wellFormed m -> wellFormed (fold_left (fun m tag => bump tag m) tags m).
Proof.
  revert m. induction tags as [|tag tags IH]; intros m Hm; simpl; [exact Hm|].
  apply IH, wellFormed_bump, Hm.
Qed.

Lemma wellFormed_entries R : wellFormed (frequencyEntries R).
Proof.
  apply wellFormed_frequencies. split; [constructor|constructor].
Qed.

(** In a well-formed map, the entries are the positive values of [getOr0]. *)
Lemma wellFormed_In m t n :
  wellFormed m -> (In (t, n) m <-> getOr0 t m = n /\ 0 < n).
Proof.
  intros [Hnd Hpos]. induction m as [|[k c] m IH]; simpl.
  - split; [tauto|lia].
  - simpl in Hnd. inversion Hnd as [|? ? Hk Hnd']; subst.
    inversion Hpos as [|? ? Hc Hpos']; subst. simpl in Hc.
    specialize (IH Hnd' Hpos').
    destruct (String.eqb_spec k t) as [->|Hkt].
    + split.
      * intros [[= ->]|Hin]; [split; [reflexivity|exact Hc]|].
        exfalso. apply Hk. apply (List.in_map fst) in Hin. exact Hin.
      * intros [-> _]. left; reflexivity.
    + rewrite <- IH. split; [intros [[= ? ?]|?]; [congruence|assumption]|tauto].
Qed.

Lemma entries_In R t n :
  In (t, n) (frequencyEntries R) <-> occurrences t (allTags R) = n /\ 0 < n.
Proof.
  rewrite (wellFormed_In _ _ _ (wellFormed_entries R)).
  unfold frequencyEntries. rewrite getOr0_frequencies. simpl.
  rewrite Nat.add_0_r. reflexivity.
Qed.

Lemma occurrences_app t l1 l2 :
  occurrences t (l1 ++ l2) = (occurrences t l1 + occurrences t l2)%nat.
Proof. unfold occurrences. rewrite List.filter_app, List.length_app. reflexivity. Qed.

Lemma occurrences_absent t l : ~ In t l -> occurrences t l = 0.
Proof.
  unfold occurrences. induction l as [|a l IH]; simpl; [reflexivity|].
  intros H. destruct (String.eqb_spec t a) as [->|_]; [tauto|]. apply IH. tauto.
Qed.

Lemma occurrences_NoDup t l :
  List.NoDup l -> occurrences t l = if bool_decide (t ∈ l) then 1 else 0.
Proof.
  induction 1 as [|a l Ha Hl IH].
  - rewrite bool_decide_eq_false_2 by apply not_elem_of_nil. reflexivity.
  - change (a :: l) with ([a] ++ l)%list at 1. rewrite occurrences_app.
    unfold occurrences at 1. simpl.
    destruct (String.eqb_spec t a) as [->|Hta]; simpl.
    + rewrite occurrences_absent by exact Ha.
      rewrite bool_decide_eq_true_2 by apply list_elem_of_here. reflexivity.
    + rewrite IH. destruct (decide (t ∈ l)) as [E|E].
      * rewrite !bool_decide_eq_true_2; [reflexivity|by apply list_elem_of_further|done].
      * rewrite !bool_decide_eq_false_2; [reflexivity| |done].
        intros [?|?]%elem_of_cons; congruence.
Qed.

Lemma occurrences_carriers t R :
  List.Forall (fun n => List.NoDup (note_tags n)) R ->
  occurrences t (allTags R) = carriers t R.
Proof.
  unfold allTags, carriers. induction 1 as [|n R Hn _ IH]; [reflexivity|].
  cbn [flat_map List.filter]. rewrite occurrences_app, IH, (occurrences_NoDup _ _ Hn).
  destruct (bool_decide (t ∈ note_tags n)); reflexivity.
Qed.

(** *** The stable sort *)

Lemma insertBy_Permutation {A} (cmp : A -> A -> Z) e l :
  Permutation (insertBy cmp e l) (e :: l).
Proof.
  induction l as [|x l IH]; simpl; [reflexivity|].
  destruct (0 <? cmp e x)%Z; [|reflexivity].
  rewrite IH. apply perm_swap.
Qed.

Lemma sortBy_Permutation {A} (cmp : A -> A -> Z) l :
  Permutation (sortBy cmp l) l.
Proof.
  induction l as [|x l IH]; simpl; [reflexivity|].
  rewrite insertBy_Permutation, IH. reflexivity.
Qed.

Lemma insertBy_HdRel e a l :
  descending a e -> HdRel descending a l ->
  HdRel descending a (insertBy byFrequencyDesc e l).
Proof.
  intros Hae Hl. destruct l as [|x l]; simpl; [constructor; exact Hae|].
  destruct (0 <? byFrequencyDesc e x)%Z.
  - inversion Hl; subst. constructor. assumption.
  - constructor. exact Hae.
Qed.

Lemma insertBy_Sorted e l :
  Sorted descending l -> Sorted descending (insertBy byFrequencyDesc e l).
Proof.
  induction 1 as [|x l Hl IH Hhd]; simpl; [repeat constructor|].
  destruct (0 <? byFrequencyDesc e x)%Z eqn:E.
  - constructor; [exact IH|]. apply insertBy_HdRel; [|exact Hhd].
    apply Z.ltb_lt in E. unfold descending, byFrequencyDesc in *. lia.
  - constructor; [constructor; assumption|]. constructor.
    apply Z.ltb_ge in E. unfold descending, byFrequencyDesc in *. lia.
Qed.

Lemma sortBy_Sorted l : Sorted descending (sortBy byFrequencyDesc l).
Proof.
  induction l as [|x l IH]; simpl; [constructor|]. apply insertBy_Sorted, IH.
Qed.

Lemma descending_trans : Relations_1.Transitive descending.
Proof. intros a b c. unfold descending. lia. Qed.

(** Entries with one frequency keep their relative order. *)
Lemma insertBy_stable n e l :
  List.filter (fun x => (snd x =? n)%nat) (insertBy byFrequencyDesc e l)
  = List.filter (fun x => (snd x =? n)%nat) (e :: l).
Proof.
  induction l as [|x l IH]; [reflexivity|].
  cbn [insertBy]. destruct (0 <? byFrequencyDesc e x)%Z eqn:E; [|reflexivity].
  apply Z.ltb_lt in E. unfold byFrequencyDesc in E.
  cbn [List.filter] in *. rewrite IH.
  destruct (Nat.eqb_spec (snd x) n), (Nat.eqb_spec (snd e) n);
    try reflexivity. lia.
Qed.

Lemma sortBy_stable n l :
  List.filter (fun x => (snd x =? n)%nat) (sortBy byFrequencyDesc l)
  = List.filter (fun x => (snd x =? n)%nat) l.
Proof.
  induction l as [|x l IH]; [reflexivity|].
  cbn [sortBy fold_right]. fold (sortBy byFrequencyDesc l).
  rewrite insertBy_stable. cbn [List.filter]. rewrite IH. reflexivity.
Qed.

(** *** What is displayed *)

Lemma displayed_In R e :
  In e (sortedTagFrequencies R)
  <-> In e (frequencyEntries R) /\ belowAll R e = true
      /\ keepsParent (frequencyEntries R) e = true.
Proof.
  unfold sortedTagFrequencies, prunedTagFrequencies. split.
  - intros H. apply (Permutation_in _ (sortBy_Permutation _ _)) in H.
    apply List.filter_In in H as [H Hk]. apply List.filter_In in H as [H Hb]. auto.
  - intros (H & Hb & Hk).
    apply (Permutation_in _ (Permutation_sym (sortBy_Permutation _ _))).
    apply List.filter_In. split; [|exact Hk]. apply List.filter_In. auto.
Qed.

Lemma childTags_In entries t o :
  In o (childTags entries t)
  <-> In o entries /\ fst o <> t /\ Js.startsWith (fst o) t = true.
Proof.
  unfold childTags. rewrite List.filter_In, andb_true_iff, negb_true_iff.
  destruct (String.eqb_spec (fst o) t); intuition congruence.
Qed.

Lemma keepsParent_with_children entries e :
  childTags entries (fst e) <> [] ->
  (keepsParent entries e = true
   <-> exists o, In o (childTags entries (fst e)) /\ snd o <> snd e).
Proof.
  intros Hne. unfold keepsParent.
  destruct (childTags entries (fst e)) as [|c cs] eqn:Ec; [congruence|].
  cbn [length Nat.eqb]. rewrite negb_true_iff. split.
  - intros H. apply not_true_iff_false in H.
    rewrite List.forallb_forall in H.
    destruct (List.Exists_dec (fun o => snd o <> snd e) (c :: cs)) as [Hex|Hnex].
    + intros o. destruct (Nat.eq_dec (snd o) (snd e)); [right|left]; tauto.
    + apply List.Exists_exists in Hex. exact Hex.
    + exfalso. apply H. intros o Ho. apply Nat.eqb_eq.
      destruct (Nat.eq_dec (snd o) (snd e)) as [|Hd]; [assumption|].
      exfalso. apply Hnex, List.Exists_exists. eauto.
  - intros (o & Ho & Hd). apply not_true_iff_false. intros H.
    rewrite List.forallb_forall in H. apply H in Ho. apply Nat.eqb_eq in Ho. tauto.
Qed.

Lemma occurrences_present t l : In t l -> 0 < occurrences t l.
Proof.
  unfold occurrences. induction l as [|a l IH]; simpl; [tauto|].
  intros [->|H]; [rewrite String.eqb_refl; simpl; lia|].
  destruct (String.eqb t a); simpl; [lia|auto].
Qed.

Lemma carriers_le_occurrences t R : carriers t R <= occurrences t (allTags R).
Proof.
  unfold allTags, carriers. induction R as [|n R IH]; [simpl; lia|].
  cbn [flat_map List.filter]. rewrite occurrences_app.
  case_bool_decide as E; cbn [length]; [|lia].
  apply list_elem_of_In, occurrences_present in E. lia.
Qed.

(** C8, amended: the frequency map gives each tag the number of its
    occurrences in the tag lists of the notes; over a result set in which no
    note lists a tag twice this is the number of notes that carry the tag.
    For every result set, an entry whose count equals the size of the result
    set is not displayed, and neither is a tag carried by every note. *)
Theorem tag_count_is_carrier_count R :
  (forall tag count,
      In (tag, count) (frequencyEntries R)
      <-> count = occurrences tag (allTags R) /\ 0 < count)
  /\ (Forall (fun n => NoDup (note_tags n)) R ->
      (forall tag count,
          In (tag, count) (frequencyEntries R)
          <-> count = carriers tag R /\ 0 < count)
      /\ (forall tag count,
            In (tag, count) (sortedTagFrequencies R) -> count = carriers tag R))
  /\ (forall tag count,
        In (tag, count) (frequencyEntries R) ->
        count = length R ->
        ~ In (tag, count) (sortedTagFrequencies R))
  /\ (forall tag count,
        In (tag, count) (sortedTagFrequencies R) -> count <> length R)
  /\ (forall tag,
        carriers tag R = length R ->
        ~ In tag (List.map fst (sortedTagFrequencies R))).
Proof.
  assert (Hocc : forall tag count,
             In (tag, count) (frequencyEntries R)
             <-> count = occurrences tag (allTags R) /\ 0 < count).
  { intros tag count. rewrite entries_In.
    split; intros [H1 H2]; split; congruence. }
  assert (Hbelow : forall tag count,
             In (tag, count) (sortedTagFrequencies R) -> count < length R).
  { intros tag count (_ & Hb & _)%displayed_In.
    unfold belowAll in Hb. apply Nat.ltb_lt in Hb. exact Hb. }
  split; [exact Hocc|]. split; [|split; [|split]].
  - intros HR.
    assert (HR' : List.Forall (fun n => List.NoDup (note_tags n)) R).
    { eapply List.Forall_impl; [|exact HR]. intros n Hn. apply NoDup_ListNoDup, Hn. }
    assert (Hentries : forall tag count,
               In (tag, count) (frequencyEntries R)
               <-> count = carriers tag R /\ 0 < count).
    { intros tag count. rewrite Hocc, (occurrences_carriers _ _ HR'). reflexivity. }
    split; [exact Hentries|].
    intros tag count (Hin & _)%displayed_In. apply Hentries in Hin as [-> _].
    reflexivity.
  - intros tag count _ -> Hin. apply Hbelow in Hin. lia.
  - intros tag count Hin ->. apply Hbelow in Hin. lia.
  - intros tag Hall Hin. apply List.in_map_iff in Hin as ([t c] & Ht & Hin).
    simpl in Ht. subst t. pose proof (Hbelow _ _ Hin) as Hlt.
    apply displayed_In in Hin as [Hin _]. apply Hocc in Hin as [-> _].
    pose proof (carriers_le_occurrences tag R). lia.
Qed.

Lemma tag_count_is_carrier_count_witness :
  let R := [ {| note_id := "n1"; note_tags := ["a"; "b"] |};
             {| note_id := "n2"; note_tags := ["b"] |};
             {| note_id := "n3"; note_tags := ["c"] |} ] in
  Forall (fun n => NoDup (note_tags n)) R
  /\ (In ("b", 2) (frequencyEntries R) <-> 2 = carriers "b" R /\ 0 < 2).
Proof.
  intros R. split.
  - apply (bool_decide_unpack _). vm_compute. exact I.
  - apply (proj1 (proj1 (proj2 (tag_count_is_carrier_count R))
                    ltac:(apply (bool_decide_unpack _); vm_compute; exact I))
                 "b" 2).
Defined.

(** C8 as stated fails: a tag listed twice by one note is counted twice. *)
Lemma tag_count_counts_repeats :
  let R := [ {| note_id := "n1"; note_tags := ["x"; "x"] |};
             {| note_id := "n2"; note_tags := [] |};
             {| note_id := "n3"; note_tags := [] |} ] in
  sortedTagFrequencies R = [("x", 2)] /\ carriers "x" R = 1.
Proof. split; reflexivity. Qed.

Lemma filter_same_frequency_sorted n R :
  List.filter (fun e => (snd e =? n)%nat) (sortedTagFrequencies R)
  = List.filter (fun e => (snd e =? n)%nat) (prunedTagFrequencies R).
Proof. apply sortBy_stable. Qed.

(** C9, amended: for every result set, the displayed entries are in
    descending order of count, and entries with equal counts stand in the
    order of the frequency map, the order of first encounter.  Among the
    tags whose count is below the size of the result set, a tag [t] that
    has at least one other tag starting with [t] is displayed exactly when
    one of those descendants has a count different from its own, and
    dropped exactly when all of them have its count. *)
Theorem parent_tag_pruned_iff_children_agree R :
  StronglySorted descending (sortedTagFrequencies R)
  /\ (forall n,
        List.filter (fun e => (snd e =? n)%nat) (sortedTagFrequencies R)
        = List.filter (fun e => (snd e =? n)%nat) (prunedTagFrequencies R))
  /\ (forall t c,
        In (t, c) (frequencyEntries R) ->
        c < length R ->
        (exists o, In o (frequencyEntries R) /\ fst o <> t
                   /\ Js.startsWith (fst o) t = true) ->
        (In (t, c) (sortedTagFrequencies R)
         <-> exists o, In o (frequencyEntries R) /\ fst o <> t
                       /\ Js.startsWith (fst o) t = true /\ snd o <> c)
        /\ (~ In (t, c) (sortedTagFrequencies R)
            <-> forall o, In o (frequencyEntries R) -> fst o <> t ->
                          Js.startsWith (fst o) t = true -> snd o = c)).
Proof.
  split; [|split].
  - apply Sorted_StronglySorted; [exact descending_trans|apply sortBy_Sorted].
  - intros n. apply filter_same_frequency_sorted.
  - intros t c Hin Hlt (o0 & Ho0).
    assert (Hne : childTags (frequencyEntries R) (fst (t, c)) <> []).
    { intros Hnil. apply (childTags_In (frequencyEntries R) t o0) in Ho0.
      simpl in Hnil. rewrite Hnil in Ho0. exact Ho0. }
    assert (Hshown : In (t, c) (sortedTagFrequencies R)
                     <-> exists o, In o (frequencyEntries R) /\ fst o <> t
                                   /\ Js.startsWith (fst o) t = true
                                   /\ snd o <> c).
    { rewrite displayed_In, (keepsParent_with_children _ _ Hne). simpl.
      split.
      - intros (_ & _ & o & Ho & Hd). apply childTags_In in Ho. exists o. tauto.
      - intros (o & H1 & H2 & H3 & H4). split; [exact Hin|]. split.
        + unfold belowAll. apply Nat.ltb_lt. exact Hlt.
        + exists o. split; [apply childTags_In; tauto|exact H4]. }
    split; [exact Hshown|].
    rewrite Hshown. split.
    + intros Hno o H1 H2 H3. destruct (Nat.eq_dec (snd o) c) as [|Hd]; [assumption|].
      exfalso. apply Hno. exists o. tauto.
    + intros Hall (o & H1 & H2 & H3 & H4). apply H4, Hall; assumption.
Qed.

Lemma parent_tag_pruned_iff_children_agree_witness :
  let R := [ {| note_id := "n1"; note_tags := ["x"; "x/y"] |};
             {| note_id := "n2"; note_tags := ["x"] |};
             {| note_id := "n3"; note_tags := ["z"] |} ] in
  sortedTagFrequencies R = [("x", 2); ("x/y", 1); ("z", 1)]
  /\ StronglySorted descending (sortedTagFrequencies R)
  /\ (In ("x", 2) (sortedTagFrequencies R)
      <-> exists o, In o (frequencyEntries R) /\ fst o <> "x"
                    /\ Js.startsWith (fst o) "x" = true /\ snd o <> 2).
Proof.
  intros R. split; [reflexivity|].
  split; [exact (proj1 (parent_tag_pruned_iff_children_agree R))|].
  refine (proj1 (proj2 (proj2 (parent_tag_pruned_iff_children_agree R))
                   "x" 2 _ _ _)).
  - vm_compute. left. reflexivity.
  - vm_compute. lia.
  - exists ("x/y", 1). vm_compute. split; [right; left; reflexivity|].
    split; [discriminate|reflexivity].
Defined.

(** C9 as stated fails: a tag carried by every note is dropped although one
    of its descendants has a different count. *)
Lemma parent_tag_dropped_though_children_differ :
  let R := [ {| note_id := "n1"; note_tags := ["x"; "x/y"] |};
             {| note_id := "n2"; note_tags := ["x"] |} ] in
  frequencyEntries R = [("x", 2); ("x/y", 1)]
  /\ Js.startsWith "x/y" "x" = true
  /\ sortedTagFrequencies R = [("x/y", 1)]
  /\ ~ In ("x", 2) (sortedTagFrequencies R).
Proof.
  repeat split; try reflexivity.
  intros [H|[]]. discriminate H.
Qed.

End TagFacts.

(** ** Wikilinks *)

(** The modelled rewriter returns content without a reference to [oldId]
    as it is. *)
Lemma updateWikilinks_unchanged content oldId newId :
  Wikilinks.references content oldId = false ->
  Wikilinks.updateWikilinks content oldId newId = content.
Proof.
  unfold Wikilinks.updateWikilinks.
  induction content as [|c rest IH]; [reflexivity|].
  cbn [Wikilinks.references Wikilinks.rewriteFrom].
  intros [Hhere Hrest]%orb_false_elim. rewrite Hhere, (IH Hrest). reflexivity.
Qed.

(** ** Storage keys *)

Lemma string_length_append (a b : string) :
  String.length (a ++ b) = (String.length a + String.length b)%nat.
Proof. induction a as [|c a IH]; simpl; [reflexivity|]. rewrite IH. reflexivity. Qed.

Lemma append_cancel_r (a b s : string) : a ++ s = b ++ s -> a = b.
Proof.
  revert b. induction a as [|c a IH]; intros [|d b] H.
  - reflexivity.
  - apply (f_equal String.length) in H.
    rewrite !string_length_append in H. simpl in H. lia.
  - apply (f_equal String.length) in H.
    rewrite !string_length_append in H. simpl in H. lia.
  - simpl in H. injection H as -> H. f_equal. apply IH, H.
Qed.

Lemma storageKey_inj a b : storageKey a = storageKey b -> a = b.
Proof. apply append_cancel_r. Qed.

Lemma storageKey_eqb a b : String.eqb (storageKey a) (storageKey b) = String.eqb a b.
Proof.
  destruct (String.eqb_spec a b) as [->|Hne].
  - apply String.eqb_refl.
  - apply String.eqb_neq. intros H. apply Hne, storageKey_inj, H.
Qed.

(** ** Rename (C3, C5, C6) *)

Section RenameFacts.
Context {U : NoteUtils}.

Lemma hasOwnProperty_true files key :
  hasOwnProperty files key = true <-> is_Some (files !! key).
Proof. unfold hasOwnProperty. apply bool_decide_eq_true. Qed.

Lemma renameRewrites_lookup files oldName newName k :
  renameRewrites files oldName newName !! k
  = match files !! k with
    | Some c =>
        if String.eqb k (storageKey oldName) then None
        else if String.eqb (updateWikilinks c oldName newName) c then None
             else Some (Some (updateWikilinks c oldName newName))
    | None => None
    end.
Proof.
  unfold renameRewrites. rewrite map_lookup_imap.
  destruct (files !! k); reflexivity.
Qed.

(** The outcome of [useRenameNote], guard by guard. *)
Lemma renameNote_cases oldName newName content w :
  let files := markdownFiles w in
  (oldName = EmptyString \/ newName = EmptyString \/ oldName = newName)
    /\ renameNote oldName newName content w = (RenameFailure no_op, w)
  \/ (oldName <> EmptyString /\ newName <> EmptyString /\ oldName <> newName)
     /\ (isValidNoteId newName = false
           /\ renameNote oldName newName content w = (RenameFailure invalid, w)
         \/ isValidNoteId newName = true
            /\ (truthyEntry files (storageKey newName) = true
                  /\ renameNote oldName newName content w
                     = (RenameFailure duplicate, w)
                \/ truthyEntry files (storageKey newName) = false
                   /\ renameNote oldName newName content w
                      = (RenameSuccess,
                         send {| wf_markdownFiles :=
                                   renameBatch files oldName newName content;
                                 wf_commitMessage :=
                                   Some ("Rename note " ++ oldName ++ " to " ++ newName) |}
                              w))).
Proof.
  intros files. unfold renameNote. fold files.
  unfold Js.truthy. rewrite !negb_involutive.
  destruct (String.eqb_spec oldName "") as [->|Ho]; [left; auto|].
  destruct (String.eqb_spec newName "") as [->|Hn]; [left; auto|].
  destruct (String.eqb_spec oldName newName) as [->|Hon]; [left; auto|].
  right. split; [auto|]. cbn [orb].
  destruct (isValidNoteId newName); [right|left; auto]. split; [reflexivity|].
  cbn [negb]. rewrite storageKey_eqb.
  destruct (String.eqb_spec newName oldName) as [->|_]; [congruence|]. cbn [negb andb].
  destruct (truthyEntry files (storageKey newName)); [left; auto|right].
  split; [reflexivity|].
  assert (Hsize : (0 <? size (renameBatch files oldName newName content))%nat = true).
  { apply Nat.ltb_lt. unfold renameBatch.
    destruct (hasOwnProperty files (storageKey oldName));
      match goal with |- 0 < size ?m =>
        assert (size m <> 0); [apply map_size_non_empty_iff, insert_non_empty|lia]
      end. }
  rewrite Hsize. reflexivity.
Qed.

(** C6: a rename that reports a failure leaves the world as it was: no
    batch reaches the persistence collaborator and the file set is
    untouched.  The failure is [no_op] only when an id is empty or both are
    equal, [invalid] only when [isValidNoteId newName] is false, and
    [duplicate] only when the file at the new key is truthy. *)
Theorem rename_failure_mutates_nothing oldName newName content w reason :
  fst (renameNote oldName newName content w) = RenameFailure reason ->
  snd (renameNote oldName newName content w) = w
  /\ sent (snd (renameNote oldName newName content w)) = sent w
  /\ markdownFiles (snd (renameNote oldName newName content w)) = markdownFiles w
  /\ match reason with
     | no_op => oldName = EmptyString \/ newName = EmptyString \/ oldName = newName
     | invalid => isValidNoteId newName = false
     | duplicate => truthyEntry (markdownFiles w) (storageKey newName) = true
     end.
Proof.
  intros Hfail.
  destruct (renameNote_cases oldName newName content w)
    as [[Hc E]|[Hc [[Hv E]|[Hv [[Hd E]|[Hd E]]]]]];
    rewrite E in *; simpl in Hfail; try discriminate;
    injection Hfail as <-; simpl; auto.
Qed.

End RenameFacts.

Lemma rename_failure_mutates_nothing_witness :
  let w := {| markdownFiles := {[ "a.md" := "A"; "b.md" := "B" ]};
              virtualFolders := ["f"]; sent := [] |} in
  fst (renameNote (U := specUtils) "a" "b" "A" w) = RenameFailure duplicate
  /\ snd (renameNote (U := specUtils) "a" "b" "A" w) = w.
Proof.
  intros w. split; [reflexivity|].
  apply (rename_failure_mutates_nothing (U := specUtils) "a" "b" "A" w duplicate).
  reflexivity.
Defined.

Section RenameBatchFacts.
Context {U : NoteUtils}.

Lemma renameBatch_lookup files oldName newName content k :
  oldName <> newName ->
  renameBatch files oldName newName content !! k
  = if String.eqb k (storageKey oldName)
    then (if hasOwnProperty files (storageKey oldName) then Some None else None)
    else if String.eqb k (storageKey newName)
    then Some (Some (updateWikilinks content oldName newName))
    else match files !! k with
         | Some c =>
             if String.eqb (updateWikilinks c oldName newName) c then None
             else Some (Some (updateWikilinks c oldName newName))
         | None => None
         end.
Proof.
  intros Hne. unfold renameBatch.
  assert (Hkeys : storageKey newName <> storageKey oldName)
    by (intros E; apply Hne; symmetry; apply storageKey_inj, E).
  destruct (String.eqb_spec k (storageKey oldName)) as [->|Hko].
  - destruct (hasOwnProperty files (storageKey oldName)) eqn:Eo.
    + apply lookup_insert_eq.
    + rewrite lookup_insert_ne by exact Hkeys.
      rewrite renameRewrites_lookup, String.eqb_refl.
      destruct (files !! storageKey oldName); reflexivity.
  - assert (Hrest :
      <[storageKey newName := Some (updateWikilinks content oldName newName)]>
        (renameRewrites files oldName newName) !! k
      = if String.eqb k (storageKey newName)
        then Some (Some (updateWikilinks content oldName newName))
        else match files !! k with
             | Some c =>
                 if String.eqb (updateWikilinks c oldName newName) c then None
                 else Some (Some (updateWikilinks c oldName newName))
             | None => None
             end).
    { destruct (String.eqb_spec k (storageKey newName)) as [->|Hkn].
      - apply lookup_insert_eq.
      - rewrite lookup_insert_ne by congruence.
        rewrite renameRewrites_lookup.
        destruct (files !! k); [|reflexivity].
        destruct (String.eqb_spec k (storageKey oldName)); [contradiction|reflexivity]. }
    destruct (hasOwnProperty files (storageKey oldName)); [|exact Hrest].
    rewrite lookup_insert_ne by congruence. exact Hrest.
Qed.

(** C3: a successful rename hands over exactly one batch.  It maps the new
    key to the given content rewritten for self-references, maps the old key
    to a tombstone exactly when the snapshot had a file there (and leaves it
    out otherwise), and holds every other snapshot file whose rewritten
    content differs from the original, mapped to the rewritten content, and
    no other key. *)
Theorem rename_success_batch oldName newName content w :
  fst (renameNote oldName newName content w) = RenameSuccess ->
  exists batch,
    snd (renameNote oldName newName content w)
    = send {| wf_markdownFiles := batch;
              wf_commitMessage :=
                Some ("Rename note " ++ oldName ++ " to " ++ newName) |} w
    /\ batch !! storageKey newName
       = Some (Some (updateWikilinks content oldName newName))
    /\ (batch !! storageKey oldName = Some None
        <-> is_Some (markdownFiles w !! storageKey oldName))
    /\ (markdownFiles w !! storageKey oldName = None ->
        batch !! storageKey oldName = None)
    /\ (forall k,
          k <> storageKey newName -> k <> storageKey oldName ->
          batch !! k
          = match markdownFiles w !! k with
            | Some c =>
                if String.eqb (updateWikilinks c oldName newName) c then None
                else Some (Some (updateWikilinks c oldName newName))
            | None => None
            end).
Proof.
  intros Hok.
  destruct (renameNote_cases oldName newName content w)
    as [[Hc E]|[(Ho & Hn & Hon) [[Hv E]|[Hv [[Hd E]|[Hd E]]]]]];
    rewrite E in *; simpl in Hok; try discriminate.
  exists (renameBatch (markdownFiles w) oldName newName content).
  assert (Hkeys : storageKey newName <> storageKey oldName)
    by (intros K; apply Hon; symmetry; apply storageKey_inj, K).
  split; [reflexivity|]. split; [|split; [|split]].
  - rewrite renameBatch_lookup by exact Hon.
    destruct (String.eqb_spec (storageKey newName) (storageKey oldName));
      [contradiction|].
    rewrite String.eqb_refl. reflexivity.
  - rewrite renameBatch_lookup, String.eqb_refl by exact Hon.
    rewrite <- hasOwnProperty_true.
    destruct (hasOwnProperty (markdownFiles w) (storageKey oldName));
      split; congruence.
  - intros Hnone. rewrite renameBatch_lookup, String.eqb_refl by exact Hon.
    unfold hasOwnProperty. rewrite Hnone.
    rewrite bool_decide_eq_false_2; [reflexivity|]. intros [? ?]; discriminate.
  - intros k Hkn Hko. rewrite renameBatch_lookup by exact Hon.
    destruct (String.eqb_spec k (storageKey oldName)); [contradiction|].
    destruct (String.eqb_spec k (storageKey newName)); [contradiction|].
    reflexivity.
Qed.

(** What the duplicate guard of [useRenameNote] tests: the truthiness of the
    entry at the new key. *)
Lemma rename_duplicate_iff_truthy oldName newName content w :
  oldName <> EmptyString -> newName <> EmptyString -> oldName <> newName ->
  isValidNoteId newName = true ->
  (fst (renameNote oldName newName content w) = RenameFailure duplicate
   <-> exists c, markdownFiles w !! storageKey newName = Some c
                 /\ c <> EmptyString).
Proof.
  intros Ho Hn Hon Hv.
  assert (Htruthy : truthyEntry (markdownFiles w) (storageKey newName) = true
                    <-> exists c, markdownFiles w !! storageKey newName = Some c
                                  /\ c <> EmptyString).
  { unfold truthyEntry, Js.truthy.
    destruct (markdownFiles w !! storageKey newName) as [c|].
    - rewrite negb_true_iff, String.eqb_neq. split.
      + intros Hc. exists c. auto.
      + intros (c' & [= <-] & Hc). exact Hc.
    - split; [discriminate|]. intros (c & Hc & _). discriminate. }
  rewrite <- Htruthy.
  destruct (renameNote_cases oldName newName content w)
    as [[Hc E]|[_ [[Hv' E]|[_ [[Hd E]|[Hd E]]]]]]; rewrite E; simpl.
  - exfalso. destruct Hc as [?|[?|?]]; contradiction.
  - congruence.
  - tauto.
  - rewrite Hd. split; discriminate.
Qed.

End RenameBatchFacts.

Lemma rename_success_batch_witness :
  let w := {| markdownFiles :=
                {[ "notes/draft.md" := "me: [[notes/draft]]";
                   "index.md" := "see [[notes/draft|My Draft]]";
                   "other.md" := "nothing here" ]};
              virtualFolders := []; sent := [] |} in
  fst (renameNote (U := specUtils) "notes/draft" "notes/final"
         "me: [[notes/draft]]" w) = RenameSuccess
  /\ sent (snd (renameNote (U := specUtils) "notes/draft" "notes/final"
                  "me: [[notes/draft]]" w))
     = [ {| wf_markdownFiles :=
              {[ "notes/final.md" := Some "me: [[notes/final]]";
                 "notes/draft.md" := None;
                 "index.md" := Some "see [[notes/final|My Draft]]" ]};
            wf_commitMessage := Some "Rename note notes/draft to notes/final" |} ]
  /\ exists batch,
       snd (renameNote (U := specUtils) "notes/draft" "notes/final"
              "me: [[notes/draft]]" w)
       = send {| wf_markdownFiles := batch;
                 wf_commitMessage :=
                   Some "Rename note notes/draft to notes/final" |} w
       /\ batch !! "notes/final.md" = Some (Some "me: [[notes/final]]").
Proof.
  intros w. split; [reflexivity|]. split; [vm_compute; reflexivity|].
  destruct (rename_success_batch (U := specUtils) "notes/draft" "notes/final"
              "me: [[notes/draft]]" w eq_refl) as (batch & Hsend & Hnew & _).
  exists batch. split; [exact Hsend|exact Hnew].
Defined.

(** C5 at its failing input: an empty file at the new key does not stop the
    rename; it succeeds and the batch overwrites that file. *)
Lemma rename_overwrites_empty_file :
  let w := {| markdownFiles := {[ "a.md" := "A"; "b.md" := "" ]};
              virtualFolders := []; sent := [] |} in
  is_Some (markdownFiles w !! storageKey "b")
  /\ storageKey "b" <> storageKey "a"
  /\ NoteId.isValidNoteId "b" = true
  /\ fst (renameNote (U := specUtils) "a" "b" "A" w) = RenameSuccess
  /\ sent (snd (renameNote (U := specUtils) "a" "b" "A" w))
     = [ {| wf_markdownFiles := {[ "b.md" := Some "A"; "a.md" := None ]};
            wf_commitMessage := Some "Rename note a to b" |} ].
Proof.
  intros w. split; [exists ""; reflexivity|]. split; [discriminate|].
  split; [reflexivity|]. split; [reflexivity|]. vm_compute. reflexivity.
Qed.

(** ** Move (C1, C4, C10) *)

Section MoveFacts.
Context {U : NoteUtils}.

Lemma includes_false_split s :
  Js.includes Js.slash s = false -> Js.split Js.slash s = [s].
Proof. apply split_no_sep_single. Qed.

Lemma basename_lastSegment oldId : basename oldId = lastSegment oldId.
Proof.
  unfold basename, lastSegment.
  destruct (Js.includes Js.slash oldId) eqn:E; [reflexivity|].
  rewrite (includes_false_split _ E). reflexivity.
Qed.

Lemma destinationId_relocatedId targetFolder oldId :
  destinationId targetFolder oldId = relocatedId targetFolder oldId.
Proof.
  unfold destinationId, relocatedId, Js.truthy.
  rewrite basename_lastSegment.
  destruct (String.eqb targetFolder ""); reflexivity.
Qed.

(** One turn of the loop does what the classification says. *)
Lemma moveStep_classify files targetFolder moved skipped oldId :
  moveStep files targetFolder (moved, skipped) oldId
  = match classify files targetFolder oldId with
    | Skipped => (moved, (skipped ++ [oldId])%list)
    | Omitted => (moved, skipped)
    | Queued => ((moved ++ [queuedItem files targetFolder oldId])%list, skipped)
    end.
Proof.
  unfold moveStep, classify, queuedItem.
  rewrite destinationId_relocatedId.
  destruct (files !! storageKey oldId) as [content|]; [|reflexivity].
  destruct (String.eqb (relocatedId targetFolder oldId) oldId); [reflexivity|].
  destruct (isValidNoteId (relocatedId targetFolder oldId)); [|reflexivity].
  cbn [negb].
  destruct (bool_decide (is_Some (files !! storageKey (relocatedId targetFolder oldId)))
            && negb (String.eqb (storageKey (relocatedId targetFolder oldId))
                                (storageKey oldId))); reflexivity.
Qed.

Lemma moveCollect_from files targetFolder noteIds moved skipped :
  fold_left (moveStep files targetFolder) noteIds (moved, skipped)
  = ((moved ++ List.map (queuedItem files targetFolder)
                 (idsOfClass files targetFolder Queued noteIds))%list,
     (skipped ++ idsOfClass files targetFolder Skipped noteIds)%list).
Proof.
  revert moved skipped.
  induction noteIds as [|id noteIds IH]; intros moved skipped.
  - simpl. rewrite !List.app_nil_r. reflexivity.
  - cbn [fold_left]. rewrite moveStep_classify. unfold idsOfClass in *.
    cbn [List.filter].
    destruct (classify files targetFolder id); cbn [sameClass]; rewrite IH;
      cbn [List.map]; rewrite <- ?List.app_assoc; reflexivity.
Qed.

Lemma moveCollect_classify files targetFolder noteIds :
  moveCollect files noteIds targetFolder
  = (List.map (queuedItem files targetFolder)
       (idsOfClass files targetFolder Queued noteIds),
     idsOfClass files targetFolder Skipped noteIds).
Proof. unfold moveCollect. rewrite moveCollect_from. reflexivity. Qed.

Lemma classes_partition files targetFolder noteIds :
  (length (idsOfClass files targetFolder Queued noteIds)
   + length (idsOfClass files targetFolder Skipped noteIds)
   + length (idsOfClass files targetFolder Omitted noteIds))%nat
  = length noteIds.
Proof.
  unfold idsOfClass. induction noteIds as [|id noteIds IH]; [reflexivity|].
  cbn [List.filter]. destruct (classify files targetFolder id);
    cbn [sameClass length]; lia.
Qed.

Lemma moveNotesToFolder_result noteIds targetFolder w :
  fst (moveNotesToFolder noteIds targetFolder w)
  = MoveSuccess (length (idsOfClass (markdownFiles w) targetFolder Queued noteIds))
                (idsOfClass (markdownFiles w) targetFolder Skipped noteIds).
Proof.
  unfold moveNotesToFolder. rewrite moveCollect_classify.
  rewrite List.length_map.
  destruct (idsOfClass (markdownFiles w) targetFolder Queued noteIds); reflexivity.
Qed.

(** C4: the first loop of the move puts every input id in exactly one of
    three classes: skipped (source absent, new id invalid, or a different
    file at the destination key), omitted (new id equal to the old id), or
    queued.  The call always succeeds, reporting the number of queued ids
    and the skipped ids, so that moved plus skipped equals the number of
    input ids minus the omitted ones. *)
Theorem move_classifies_each_id_once noteIds targetFolder w :
  let files := markdownFiles w in
  let queued := idsOfClass files targetFolder Queued noteIds in
  let skipped := idsOfClass files targetFolder Skipped noteIds in
  let omitted := idsOfClass files targetFolder Omitted noteIds in
  moveCollect files noteIds targetFolder
  = (List.map (queuedItem files targetFolder) queued, skipped)
  /\ fst (moveNotesToFolder noteIds targetFolder w)
     = MoveSuccess (length queued) skipped
  /\ (length queued + length skipped + length omitted)%nat = length noteIds
  /\ (length queued + length skipped)%nat = (length noteIds - length omitted)%nat
  /\ (forall id, destinationId targetFolder id = relocatedId targetFolder id).
Proof.
  intros files queued skipped omitted.
  pose proof (classes_partition files targetFolder noteIds) as Hpart.
  fold queued skipped omitted in Hpart.
  split; [apply moveCollect_classify|].
  split; [apply moveNotesToFolder_result|].
  split; [exact Hpart|]. split; [lia|].
  intros id. apply destinationId_relocatedId.
Qed.

End MoveFacts.

Example move_skips_occupied :
  fst (moveNotesToFolder (U := specUtils) ["a/x"; "a/y"] "b"
         (worldOf {[ "a/x.md" := "X"; "a/y.md" := "Y"; "b/y.md" := "B" ]} []))
  = MoveSuccess 1 ["a/y"].
Proof. reflexivity. Qed.

Example move_omits_noop :
  fst (moveNotesToFolder (U := specUtils) ["b/x"; "gone"; "a/y"] "b"
         (worldOf {[ "b/x.md" := "X"; "a/y.md" := "Y" ]} []))
  = MoveSuccess 1 ["gone"].
Proof. reflexivity. Qed.

Section MoveBatchFacts.
Context {U : NoteUtils}.

Lemma applyBatch_lookup batch files k :
  applyBatch batch files !! k
  = match batch !! k with Some v => v | None => files !! k end.
Proof.
  unfold applyBatch. rewrite lookup_merge.
  destruct (batch !! k), (files !! k); reflexivity.
Qed.

Lemma moveRewrites_lookup files moved k :
  moveRewrites files moved !! k
  = match files !! k with
    | Some c =>
        if String.eqb (rewriteAll moved c) c then None
        else Some (Some (rewriteAll moved c))
    | None => None
    end.
Proof.
  unfold moveRewrites. rewrite map_lookup_imap.
  destruct (files !! k); reflexivity.
Qed.

(** The third loop leaves alone every key that is neither an old nor a new
    key of a queued move. *)
Lemma moveRelocate_lookup_other moved updated k :
  List.Forall (fun m => k <> storageKey (mv_oldId m)
                        /\ k <> storageKey (mv_newId m)) moved ->
  moveRelocate moved updated !! k = updated !! k.
Proof.
  unfold moveRelocate. intros H. revert updated.
  induction H as [|m moved [Ho Hn] _ IH]; intros updated; [reflexivity|].
  cbn [fold_left]. rewrite IH.
  rewrite lookup_insert_ne by congruence.
  rewrite lookup_insert_ne by congruence. reflexivity.
Qed.

(** Files that are not moved get every queued rewrite. *)
Lemma moveBatch_other_files files moved k :
  List.Forall (fun m => k <> storageKey (mv_oldId m)
                        /\ k <> storageKey (mv_newId m)) moved ->
  applyBatch (moveBatch files moved) files !! k
  = rewriteAll moved <$> files !! k.
Proof.
  intros H. rewrite applyBatch_lookup. unfold moveBatch.
  rewrite (moveRelocate_lookup_other _ _ _ H), moveRewrites_lookup.
  destruct (files !! k) as [c|]; [|reflexivity]. simpl.
  destruct (String.eqb_spec (rewriteAll moved c) c) as [->|_]; reflexivity.
Qed.

(** The relocated file of the move queued last gets the rewrite of its own
    pair only. *)
Lemma moveBatch_last_relocated files moved m :
  mv_oldId m <> mv_newId m ->
  moveBatch files (moved ++ [m]) !! storageKey (mv_newId m)
  = Some (Some (updateWikilinks (mv_content m) (mv_oldId m) (mv_newId m))).
Proof.
  intros Hne. unfold moveBatch, moveRelocate. rewrite fold_left_app. cbn [fold_left].
  rewrite lookup_insert_ne
    by (intros E; apply Hne, storageKey_inj, E).
  apply lookup_insert_eq.
Qed.

Lemma classify_queued files targetFolder oldId content :
  files !! storageKey oldId = Some content ->
  files !! storageKey (relocatedId targetFolder oldId) = None ->
  isValidNoteId (relocatedId targetFolder oldId) = true ->
  classify files targetFolder oldId = Queued.
Proof.
  intros Hold Hnew Hvalid. unfold classify. rewrite Hold, Hvalid, Hnew.
  destruct (String.eqb_spec (relocatedId targetFolder oldId) oldId) as [E|_].
  - rewrite E in Hnew. congruence.
  - cbn [negb]. rewrite bool_decide_eq_false_2; [reflexivity|].
    intros [? ?]; discriminate.
Qed.

(** Two notes with one basename, moved together to a folder where that
    name is free: both are queued, nothing is skipped, and the batch keeps
    only the later one at the shared destination. *)
Lemma move_collision_batch files folders id1 id2 targetFolder c1 c2 :
  id1 <> id2 ->
  lastSegment id1 = lastSegment id2 ->
  files !! storageKey id1 = Some c1 ->
  files !! storageKey id2 = Some c2 ->
  files !! storageKey (relocatedId targetFolder id1) = None ->
  isValidNoteId (relocatedId targetFolder id1) = true ->
  let dest := relocatedId targetFolder id1 in
  let r := moveNotesToFolder [id1; id2] targetFolder (worldOf files folders) in
  fst r = MoveSuccess 2 []
  /\ exists batch msg,
       sent (snd r) = [ {| wf_markdownFiles := batch; wf_commitMessage := msg |} ]
       /\ batch !! storageKey dest = Some (Some (updateWikilinks c2 id2 dest))
       /\ batch !! storageKey id1 = Some None
       /\ batch !! storageKey id2 = Some None
       /\ applyBatch batch files !! storageKey dest
          = Some (updateWikilinks c2 id2 dest)
       /\ applyBatch batch files !! storageKey id1 = None
       /\ applyBatch batch files !! storageKey id2 = None.
Proof.
  intros Hne Hlast H1 H2 Hfree Hvalid dest r.
  assert (Hdest2 : relocatedId targetFolder id2 = dest)
    by (unfold dest, relocatedId; rewrite Hlast; reflexivity).
  assert (Hq1 : classify files targetFolder id1 = Queued)
    by (eapply classify_queued; eauto).
  assert (Hq2 : classify files targetFolder id2 = Queued).
  { eapply classify_queued; [exact H2| |]; rewrite Hdest2; assumption. }
  assert (Hdest1 : relocatedId targetFolder id1 = dest) by reflexivity.
  assert (Hfree' : files !! storageKey dest = None) by exact Hfree.
  clearbody dest.
  assert (Hd1 : storageKey dest <> storageKey id1) by (intros E; congruence).
  assert (Hd2 : storageKey dest <> storageKey id2) by (intros E; congruence).
  assert (H12 : storageKey id1 <> storageKey id2)
    by (intros E; apply Hne, storageKey_inj, E).
  assert (Hcollect : moveCollect files [id1; id2] targetFolder
                     = ([queuedItem files targetFolder id1;
                         queuedItem files targetFolder id2], [])).
  { rewrite moveCollect_classify. unfold idsOfClass. cbn [List.filter].
    rewrite Hq1, Hq2. reflexivity. }
  subst r. unfold moveNotesToFolder. cbn [markdownFiles worldOf].
  rewrite Hcollect. cbn [length Nat.eqb fst snd].
  split; [reflexivity|].
  eexists. eexists. split.
  { cbn [send sent setVirtualFolders worldOf].
    match goal with
    | |- (sent (if ?c then _ else _) ++ _)%list = _ => destruct c
    end; reflexivity. }
  unfold moveBatch, moveRelocate, queuedItem.
  cbn [fold_left mv_oldId mv_newId mv_content]. rewrite H1, H2, Hdest1, Hdest2.
  cbn [default].
  unfold id.
  assert (Hb_dest : forall (base : gmap string (option string)) v1 v2,
    <[storageKey id2:=None]>
      (<[storageKey dest:=v2]>
        (<[storageKey id1:=None]> (<[storageKey dest:=v1]> base)))
    !! storageKey dest = Some v2).
  { intros. rewrite lookup_insert_ne by congruence. apply lookup_insert_eq. }
  assert (Hb_1 : forall (base : gmap string (option string)) v1 v2,
    <[storageKey id2:=None]>
      (<[storageKey dest:=v2]>
        (<[storageKey id1:=None]> (<[storageKey dest:=v1]> base)))
    !! storageKey id1 = Some None).
  { intros. rewrite lookup_insert_ne by congruence.
    rewrite lookup_insert_ne by congruence. apply lookup_insert_eq. }
  rewrite !applyBatch_lookup, !Hb_dest, !Hb_1, !lookup_insert_eq. auto 10.
Qed.

End MoveBatchFacts.

(** C10: there is an input on which a move loses a note without saying so.
    Two distinct ids with one basename, both present, destination free:
    the result reports two moves and no skip, the batch maps the shared
    destination key to the later note only and tombstones both old keys,
    and once the batch is applied no key holds the earlier note's content. *)
Theorem move_same_basename_loses_note :
  exists (files : gmap string string) (id1 id2 targetFolder c1 c2 : string),
    id1 <> id2
    /\ basename id1 = basename id2
    /\ files !! storageKey id1 = Some c1
    /\ files !! storageKey id2 = Some c2
    /\ files !! storageKey (destinationId targetFolder id1) = None
    /\ destinationId targetFolder id2 = destinationId targetFolder id1
    /\ let r := moveNotesToFolder (U := specUtils) [id1; id2] targetFolder
                  (worldOf files []) in
       fst r = MoveSuccess 2 []
       /\ exists batch msg,
            sent (snd r)
            = [ {| wf_markdownFiles := batch; wf_commitMessage := msg |} ]
            /\ batch !! storageKey (destinationId targetFolder id1)
               = Some (Some (Wikilinks.updateWikilinks c2 id2
                               (destinationId targetFolder id2)))
            /\ batch !! storageKey id1 = Some None
            /\ batch !! storageKey id2 = Some None
            /\ (forall k c, applyBatch batch files !! k = Some c -> c <> c1).
Proof.
  exists {[ "a/n.md" := "first"; "b/n.md" := "second" ]}, "a/n", "b/n", "c",
         "first", "second".
  split; [discriminate|]. do 5 (split; [reflexivity|]).
  split; [reflexivity|].
  exists {[ "c/n.md" := Some "second"; "a/n.md" := None; "b/n.md" := None ]},
         (Some "Move 2 note(s) to c").
  split; [vm_compute; reflexivity|]. do 3 (split; [reflexivity|]).
  intros k c.
  replace (applyBatch _ _) with ({[ "c/n.md" := "second" ]} : gmap string string)
    by (vm_compute; reflexivity).
  intros [_ <-]%lookup_singleton_Some. discriminate.
Qed.

(** C1 at its failing input: two notes are moved together and the first
    links to the second.  The relocated first note is written with the
    rewrite of its own pair only, so after the batch it still refers to the
    old id of the second, whose file the same batch deletes.  Applying every
    queued rewrite, as is done for the files that stay, would have given
    the new id. *)
Lemma move_leaves_dangling_reference :
  let files : gmap string string :=
    {[ "a/x.md" := "see [[a/y]]"; "a/y.md" := "Y"; "z.md" := "also [[a/y]]" ]} in
  let r := moveNotesToFolder (U := specUtils) ["a/x"; "a/y"] "b"
             (worldOf files []) in
  let batch : gmap string (option string) :=
    {[ "b/x.md" := Some "see [[a/y]]"; "b/y.md" := Some "Y";
       "a/x.md" := None; "a/y.md" := None;
       "z.md" := Some "also [[b/y]]" ]} in
  fst r = MoveSuccess 2 []
  /\ sent (snd r)
     = [ {| wf_markdownFiles := batch;
            wf_commitMessage := Some "Move 2 note(s) to b" |} ]
  /\ applyBatch batch files
     = {[ "b/x.md" := "see [[a/y]]"; "b/y.md" := "Y"; "z.md" := "also [[b/y]]" ]}
  /\ Wikilinks.references "see [[a/y]]" "a/y" = true
  /\ applyBatch batch files !! storageKey "a/y" = None
  /\ rewriteAll (U := specUtils)
       [ {| mv_oldId := "a/x"; mv_newId := "b/x"; mv_content := "see [[a/y]]" |};
         {| mv_oldId := "a/y"; mv_newId := "b/y"; mv_content := "Y" |} ]
       "see [[a/y]]"
     = "see [[b/y]]".
Proof.
  intros files r batch.
  split; [reflexivity|]. split; [vm_compute; reflexivity|].
  split; [vm_compute; reflexivity|]. split; [reflexivity|].
  split; [vm_compute; reflexivity|reflexivity].
Qed.

(** ** Virtual folder ledger (C2) *)

Lemma nonempty_length {A} (l : list A) : l <> [] <-> 0 < length l.
Proof. destruct l; simpl; split; intros; try congruence; lia. Qed.

(** The folder prefixes of an id are its proper ancestors: the strings [p]
    with [p ++ "/"] a prefix of the id. *)
Lemma getFolderPrefixes_ancestors noteId p :
  In p (NoteId.getFolderPrefixes noteId)
  <-> exists rest, noteId = p ++ String Js.slash rest.
Proof.
  unfold NoteId.getFolderPrefixes.
  set (parts := Js.split Js.slash noteId).
  assert (Hid : Js.join "/" parts = noteId) by apply join_split.
  split.
  - destruct (Nat.leb_spec (length parts) 1) as [|Hn]; [intros []|].
    intros (i & <- & Hi%List.in_seq)%List.in_map_iff.
    exists (Js.join "/" (skipn i parts)).
    rewrite <- join_app, List.firstn_skipn; [congruence| |].
    + apply nonempty_length. rewrite List.length_firstn. lia.
    + apply nonempty_length. rewrite List.length_skipn. lia.
  - intros (rest & Hrest).
    assert (Hparts : parts = (Js.split Js.slash p ++ Js.split Js.slash rest)%list).
    { unfold parts. rewrite Hrest. apply split_app. }
    pose proof (proj1 (nonempty_length _) (split_nonempty Js.slash p)) as Hp.
    pose proof (proj1 (nonempty_length _) (split_nonempty Js.slash rest)) as Hr.
    assert (Hlen : length parts
                   = (length (Js.split Js.slash p)
                      + length (Js.split Js.slash rest))%nat)
      by (rewrite Hparts; apply List.length_app).
    destruct (Nat.leb_spec (length parts) 1) as [|Hn]; [lia|].
    apply List.in_map_iff. exists (length (Js.split Js.slash p)). split.
    + rewrite Hparts, List.firstn_app, List.firstn_all, Nat.sub_diag.
      cbn [firstn]. rewrite List.app_nil_r. apply join_split.
    + apply List.in_seq. lia.
Qed.


Lemma reconcile_In savedNoteId prev p :
  In p (reconcile savedNoteId prev)
  <-> In p prev /\ ~ In p (NoteId.getFolderPrefixes savedNoteId).
Proof.
  unfold reconcile.
  destruct (NoteId.getFolderPrefixes savedNoteId) as [|a l] eqn:E.
  - simpl. tauto.
  - cbn [length Nat.ltb Nat.leb]. rewrite List.filter_In, negb_true_iff.
    rewrite bool_decide_eq_false, list_elem_of_In. reflexivity.
Qed.

(** C2 at its failing inputs.  A move into the virtual folder "b" succeeds
    and introduces "b/x", whose ancestor folder is "b"; the ledger loses the
    ancestor of the old id, "a", and keeps "b".  A rename into the virtual
    folder "f" succeeds and introduces "f/x"; the ledger is left as it was.
    Reconciling the new id, as saving a note does, removes the folder in
    both cases. *)
Lemma engines_do_not_reconcile_new_ids :
  let wm := {| markdownFiles := {[ "a/x.md" := "X" ]};
               virtualFolders := ["a"; "b"]; sent := [] |} in
  let wr := {| markdownFiles := {[ "x.md" := "X" ]};
               virtualFolders := ["f"]; sent := [] |} in
  fst (moveNotesToFolder (U := specUtils) ["a/x"] "b" wm) = MoveSuccess 1 []
  /\ destinationId "b" "a/x" = "b/x"
  /\ NoteId.getFolderPrefixes "b/x" = ["b"]
  /\ virtualFolders (snd (moveNotesToFolder (U := specUtils) ["a/x"] "b" wm))
     = ["b"]
  /\ reconcile "b/x" (virtualFolders wm) = ["a"]
  /\ fst (renameNote (U := specUtils) "x" "f/x" "X" wr) = RenameSuccess
  /\ NoteId.getFolderPrefixes "f/x" = ["f"]
  /\ virtualFolders (snd (renameNote (U := specUtils) "x" "f/x" "X" wr)) = ["f"]
  /\ reconcile "f/x" (virtualFolders wr) = []
  /\ virtualFolders (saveNote (fun c => c) "f/x" "X" wr) = [].
Proof.
  intros wm wr. repeat split; vm_compute; reflexivity.
Qed.

(** * Further properties of the sources *)

(** ** Prefixes and slices *)

Section SliceFacts.
Import Js Folders.

Lemma append_cons c (a b : string) : String c a ++ b = String c (a ++ b).
Proof. reflexivity. Qed.

Lemma prefix_append (a r : string) : String.prefix a (a ++ r) = true.
Proof.
  induction a as [|c a IH]; simpl; [destruct r; reflexivity|].
  destruct (ascii_dec c c); [exact IH|congruence].
Qed.

Lemma prefix_split (a s : string) :
  String.prefix a s = true -> s = a ++ slice (String.length a) s.
Proof.
  revert s. induction a as [|c a IH]; intros s; simpl.
  - reflexivity.
  - destruct s as [|d s]; simpl; [discriminate|].
    destruct (ascii_dec c d) as [->|]; [|discriminate].
    intros H. rewrite append_cons. f_equal. apply IH, H.
Qed.

Lemma slice_append (a r : string) : slice (String.length a) (a ++ r) = r.
Proof. induction a as [|c a IH]; simpl; [destruct r; reflexivity|exact IH]. Qed.

Lemma sliceTo_append (a r : string) : sliceTo (String.length a) (a ++ r) = a.
Proof.
  induction a as [|c a IH]; simpl; [destruct r; reflexivity|]. rewrite IH. reflexivity.
Qed.

Lemma length_with_slash (a : string) :
  String.length (a ++ "/") = (String.length a + 1)%nat.
Proof. rewrite string_length_append. reflexivity. Qed.

Lemma truthy_false s : truthy s = false <-> s = EmptyString.
Proof.
  unfold truthy. rewrite negb_false_iff. apply String.eqb_eq.
Qed.

Lemma truthy_true s : truthy s = true <-> s <> EmptyString.
Proof.
  unfold truthy. rewrite negb_true_iff. apply String.eqb_neq.
Qed.

Lemma last_split_no_slash s :
  includes slash (List.last (split slash s) EmptyString) = false.
Proof.
  pose proof (split_no_sep slash s) as Hall.
  pose proof (split_nonempty slash s) as Hne.
  induction Hall as [|t l Ht Hl IH]; [congruence|].
  destruct l as [|t' l]; [exact Ht|]. apply IH. discriminate.
Qed.

Lemma direct_child_intro folder name :
  includes slash name = false ->
  isDirectChildNote (childFolderPath folder name) folder = true.
Proof.
  intros Hname. unfold isDirectChildNote, childFolderPath.
  destruct (truthy folder) eqn:E; cbn [negb].
  - unfold startsWith.
    rewrite <- (string_append_assoc folder "/" name), prefix_append. cbn [negb].
    rewrite <- length_with_slash, slice_append, Hname. reflexivity.
  - rewrite Hname. reflexivity.
Qed.

Lemma direct_child_elim id folder :
  isDirectChildNote id folder = true ->
  exists name, id = childFolderPath folder name /\ includes slash name = false.
Proof.
  unfold isDirectChildNote, childFolderPath.
  destruct (truthy folder) eqn:E; cbn [negb].
  - unfold startsWith.
    destruct (String.prefix (folder ++ "/") id) eqn:P; cbn [negb]; [|discriminate].
    intros H%negb_true_iff.
    exists (slice (String.length folder + 1) id). split; [|exact H].
    apply prefix_split in P. rewrite length_with_slash in P.
    rewrite P at 1. apply string_append_assoc.
  - intros H%negb_true_iff. exists id. auto.
Qed.

(** X3: a note is listed directly in a folder exactly when its id is the
    folder path followed by one slash-free name (the bare name at the
    root). *)
Theorem direct_child_iff_folder_and_name id folder :
  isDirectChildNote id folder = true
  <-> exists name, id = childFolderPath folder name
                   /\ includes slash name = false.
Proof.
  split; [apply direct_child_elim|].
  intros (name & -> & Hname). apply direct_child_intro, Hname.
Qed.

End SliceFacts.

(** X4: whatever the target folder, the id a move computes for a note is a
    direct child of that folder, so every moved note shows up in the
    listing of the folder it was moved to. *)
Theorem moved_note_is_direct_child_of_target targetFolder oldId :
  Folders.isDirectChildNote (destinationId targetFolder oldId) targetFolder = true.
Proof.
  assert (H : destinationId targetFolder oldId
              = Folders.childFolderPath targetFolder (basename oldId))
    by reflexivity.
  rewrite H. apply direct_child_intro.
  rewrite basename_lastSegment. apply last_split_no_slash.
Qed.

(** ** Sets kept in insertion order *)

Section SetAddFacts.
Import Folders.

Lemma setAdd_In x y names : In x (setAdd y names) <-> x = y \/ In x names.
Proof.
  unfold setAdd. case_bool_decide as E.
  - apply list_elem_of_In in E. split; [auto|]. intros [->|H]; assumption.
  - rewrite List.in_app_iff. simpl. intuition congruence.
Qed.

Lemma setAdd_NoDup y names : List.NoDup names -> List.NoDup (setAdd y names).
Proof.
  intros Hnd. unfold setAdd. case_bool_decide as E; [exact Hnd|].
  apply NoDup_ListNoDup. apply NoDup_ListNoDup in Hnd.
  apply NoDup_app. split; [exact Hnd|]. split.
  - intros z Hz ->%list_elem_of_singleton. exact (E Hz).
  - apply NoDup_singleton.
Qed.

Lemma setAdd_all_In x xs names :
  In x (fold_left (fun names y => setAdd y names) xs names)
  <-> In x xs \/ In x names.
Proof.
  revert names. induction xs as [|y xs IH]; intros names; cbn [fold_left].
  - simpl. tauto.
  - rewrite IH, setAdd_In. simpl. intuition congruence.
Qed.

Lemma setAdd_all_NoDup xs names :
  List.NoDup names ->
  List.NoDup (fold_left (fun names y => setAdd y names) xs names).
Proof.
  revert names. induction xs as [|y xs IH]; intros names Hnd; cbn [fold_left];
    [exact Hnd|]. apply IH, setAdd_NoDup, Hnd.
Qed.

Lemma sortBy_In {A} (cmp : A -> A -> Z) x l :
  In x (TagCloud.sortBy cmp l) <-> In x l.
Proof.
  split; apply Permutation_in;
    [|apply Permutation_sym]; apply sortBy_Permutation.
Qed.

Lemma sortBy_NoDup {A} (cmp : A -> A -> Z) (l : list A) :
  List.NoDup l -> List.NoDup (TagCloud.sortBy cmp l).
Proof.
  intros H. eapply Permutation_NoDup; [|exact H].
  apply Permutation_sym, sortBy_Permutation.
Qed.

End SetAddFacts.

(** ** First segments *)

Section SegmentFacts.
Import Js Folders.

Lemma includes_append_slash (x rest : string) :
  includes slash (x ++ String slash rest) = true.
Proof.
  induction x as [|c x IH]; simpl; [reflexivity|].
  rewrite IH. apply orb_true_r.
Qed.

Lemma firstSegment_append x rest :
  includes slash x = false -> firstSegment (x ++ String slash rest) = x.
Proof.
  intros Hx. unfold firstSegment. rewrite split_app_sep by exact Hx. reflexivity.
Qed.

Lemma firstSegment_no_slash s : includes slash (firstSegment s) = false.
Proof.
  unfold firstSegment. pose proof (split_no_sep slash s) as Hall.
  destruct Hall as [|t l Ht _]; [reflexivity|exact Ht].
Qed.

(** A string is its first segment, or its first segment, a slash and a
    rest. *)
Lemma firstSegment_decompose s :
  (includes slash s = false /\ s = firstSegment s)
  \/ (includes slash s = true
      /\ exists rest, s = firstSegment s ++ String slash rest).
Proof.
  destruct (includes slash s) eqn:E.
  - right. split; [reflexivity|].
    pose proof (join_split s) as Hjoin. unfold firstSegment.
    pose proof (split_nonempty slash s) as Hne.
    destruct (split slash s) as [|h [|h' t]] eqn:Es; [congruence| |].
    + exfalso. cbn in Hjoin. subst h.
      pose proof (split_no_sep slash s) as Hall. rewrite Es in Hall.
      inversion Hall; congruence.
    + exists (join "/" (h' :: t)). rewrite join_cons in Hjoin.
      symmetry. exact Hjoin.
  - left. split; [reflexivity|]. unfold firstSegment.
    rewrite (split_no_sep_single _ _ E). reflexivity.
Qed.

Lemma firstSegment_unique s x rest :
  s = x ++ String slash rest -> includes slash x = false ->
  includes slash s = true /\ x = firstSegment s.
Proof.
  intros -> Hx. split; [apply includes_append_slash|].
  symmetry. apply firstSegment_append, Hx.
Qed.

End SegmentFacts.

(** ** Child folders and direct children *)

Section ChildFolderFacts.
Import Js Folders.

Lemma append_cancel_l (a x y : string) : a ++ x = a ++ y -> x = y.
Proof.
  induction a as [|c a IH]; [exact (fun H => H)|].
  rewrite !append_cons. intros [= H]. apply IH, H.
Qed.

Lemma append_slash (a rest : string) :
  a ++ String slash rest = (a ++ "/") ++ rest.
Proof. symmetry. apply (string_append_assoc a "/" rest). Qed.

Lemma folder_rest folder id :
  startsWith id (folder ++ "/") = true ->
  id = folder ++ String slash (slice (String.length folder + 1) id).
Proof.
  unfold startsWith. intros P. apply prefix_split in P.
  rewrite length_with_slash in P. rewrite P at 1. symmetry. apply append_slash.
Qed.

Lemma startsWith_folder folder rest :
  startsWith (folder ++ String slash rest) (folder ++ "/") = true.
Proof.
  unfold startsWith. rewrite (append_slash folder rest). apply prefix_append.
Qed.

Lemma slice_folder folder rest :
  slice (String.length folder + 1) (folder ++ String slash rest) = rest.
Proof.
  rewrite <- length_with_slash, (append_slash folder rest). apply slice_append.
Qed.

(** The part of an id below a folder: the id itself at the root, what
    follows the folder and its slash otherwise. *)
Lemma below_folder folder id :
  (folder = EmptyString \/ startsWith id (folder ++ "/") = true) ->
  exists below,
    id = childFolderPath folder below
    /\ (truthy folder = true -> below = slice (String.length folder + 1) id)
    /\ (truthy folder = false -> below = id).
Proof.
  intros H. destruct (truthy folder) eqn:E.
  - destruct H as [->|H]; [discriminate|].
    exists (slice (String.length folder + 1) id).
    unfold childFolderPath. rewrite E.
    split; [apply folder_rest, H|]. split; [reflexivity|discriminate].
  - exists id. unfold childFolderPath. rewrite E.
    split; [reflexivity|]. split; [discriminate|reflexivity].
Qed.

Lemma childFolderPath_deeper folder x rest :
  childFolderPath folder x ++ String slash rest
  = childFolderPath folder (x ++ String slash rest).
Proof.
  unfold childFolderPath. destruct (truthy folder); [|reflexivity].
  change ((folder ++ String slash x) ++ String slash rest
          = folder ++ String slash (x ++ String slash rest)).
  rewrite (append_slash folder x), (append_slash folder (x ++ String slash rest)).
  apply string_append_assoc.
Qed.

Lemma childFolderPath_inj folder a b :
  childFolderPath folder a = childFolderPath folder b -> a = b.
Proof.
  unfold childFolderPath. destruct (truthy folder); [|exact (fun H => H)].
  intros H. apply append_cancel_l in H. injection H as H. exact H.
Qed.

(** What one note adds to the child folder names. *)
Lemma childFolderFromNote_In folder names id x :
  In x (childFolderFromNote folder names id)
  <-> In x names
      \/ (includes slash x = false
          /\ exists rest, id = childFolderPath folder x ++ String slash rest).
Proof.
  assert (Hadd : forall below,
    id = childFolderPath folder below ->
    (In x (if includes slash below
           then setAdd (firstSegment below) names else names)
     <-> In x names
         \/ (includes slash x = false
             /\ exists rest, id = childFolderPath folder x ++ String slash rest))).
  { intros below ->.
    assert (Hdeep : (exists rest,
                        childFolderPath folder below
                        = childFolderPath folder x ++ String slash rest)
                    <-> exists rest, below = x ++ String slash rest).
    { split; intros (rest & H); exists rest.
      - rewrite childFolderPath_deeper in H.
        apply childFolderPath_inj in H. exact H.
      - rewrite childFolderPath_deeper. congruence. }
    rewrite Hdeep.
    destruct (firstSegment_decompose below) as [[E _]|[E (rest & Hrest)]];
      rewrite E.
    - split; [auto|]. intros [H|[_ (rest & ->)]]; [exact H|].
      rewrite includes_append_slash in E. discriminate.
    - rewrite setAdd_In. split.
      + intros [->|H]; [right|left; exact H].
        split; [apply firstSegment_no_slash|]. exists rest. exact Hrest.
      + intros [H|[Hx (rest' & H)]]; [right; exact H|left].
        apply (firstSegment_unique _ _ _ H Hx). }
  unfold childFolderFromNote.
  destruct (truthy folder) eqn:E; cbn [negb].
  - destruct (startsWith id (folder ++ "/")) eqn:P; cbn [negb].
    + apply Hadd. unfold childFolderPath. rewrite E. apply folder_rest, P.
    + split; [auto|]. intros [H|[_ (rest & H)]]; [exact H|].
      exfalso. rewrite childFolderPath_deeper in H. unfold childFolderPath in H.
      rewrite E in H. rewrite H in P.
      change (folder ++ "/" ++ x ++ String slash rest)
        with (folder ++ String slash (x ++ String slash rest)) in P.
      rewrite startsWith_folder in P. discriminate.
  - apply Hadd. unfold childFolderPath. rewrite E. reflexivity.
Qed.

Lemma childFolderNamesFromNotes_from folder noteIds names x :
  In x (fold_left (childFolderFromNote folder) noteIds names)
  <-> In x names
      \/ (includes slash x = false
          /\ exists id rest,
               In id noteIds
               /\ id = childFolderPath folder x ++ String slash rest).
Proof.
  revert names. induction noteIds as [|id noteIds IH]; intros names;
    cbn [fold_left].
  - split; [auto|]. intros [H|[_ (id & rest & [] & _)]]. exact H.
  - rewrite IH, childFolderFromNote_In. split.
    + intros [[H|[Hx (rest & H)]]|[Hx (id' & rest & Hin & H)]]; [auto| |].
      * right. split; [exact Hx|]. exists id, rest. split; [left; reflexivity|exact H].
      * right. split; [exact Hx|]. exists id', rest. split; [right; exact Hin|exact H].
    + intros [H|[Hx (id' & rest & [<-|Hin] & H)]]; [auto| |].
      * left. right. split; [exact Hx|]. exists rest. exact H.
      * right. split; [exact Hx|]. exists id', rest. auto.
Qed.

Lemma childFolderFromNote_NoDup folder names id :
  List.NoDup names -> List.NoDup (childFolderFromNote folder names id).
Proof.
  intros Hnd. unfold childFolderFromNote.
  repeat match goal with
         | |- context [if ?c then _ else _] => destruct c
         end; auto using setAdd_NoDup.
Qed.

(** X5: the child folder names read from the notes are distinct, and a name
    is among them exactly when it is slash-free and some note lies below
    the folder of that name inside the current folder. *)
Theorem child_folder_names_from_notes noteIds folder :
  List.NoDup (getChildFolderNamesFromNotes noteIds folder)
  /\ forall name,
       In name (getChildFolderNamesFromNotes noteIds folder)
       <-> includes slash name = false
           /\ exists id rest,
                In id noteIds
                /\ id = childFolderPath folder name ++ "/" ++ rest.
Proof.
  unfold getChildFolderNamesFromNotes. split.
  - assert (H : forall names, List.NoDup names ->
                  List.NoDup (fold_left (childFolderFromNote folder) noteIds names)).
    { induction noteIds as [|id ids IH]; intros names Hnd; cbn [fold_left];
        [exact Hnd|]. apply IH, childFolderFromNote_NoDup, Hnd. }
    apply H. constructor.
  - intros name. rewrite childFolderNamesFromNotes_from. simpl. tauto.
Qed.

(** X6: every note below the current folder is reachable from its listing:
    it is a direct child, or else (and only then) it lies in one of the
    child folders named there. *)
Theorem note_is_direct_child_or_in_child_folder noteIds folder id :
  In id noteIds ->
  folder = EmptyString \/ startsWith id (folder ++ "/") = true ->
  (isDirectChildNote id folder = false
   <-> exists name,
         In name (getChildFolderNamesFromNotes noteIds folder)
         /\ startsWith id (childFolderPath folder name ++ "/") = true).
Proof.
  intros Hin Hunder.
  destruct (below_folder folder id Hunder) as (below & Hid & Hbelow1 & Hbelow2).
  assert (Hdirect : isDirectChildNote id folder = negb (includes slash below)).
  { unfold isDirectChildNote. destruct (truthy folder) eqn:E; cbn [negb].
    - rewrite (Hbelow1 eq_refl).
      destruct Hunder as [->|P]; [discriminate|]. rewrite P. reflexivity.
    - rewrite (Hbelow2 eq_refl). reflexivity. }
  rewrite Hdirect, negb_false_iff. split.
  - intros Hslash.
    destruct (firstSegment_decompose below) as [[E _]|[_ (rest & Hrest)]];
      [congruence|].
    exists (firstSegment below).
    assert (Hdeep : id = childFolderPath folder (firstSegment below)
                         ++ String slash rest).
    { rewrite childFolderPath_deeper, <- Hrest. exact Hid. }
    split.
    + unfold getChildFolderNamesFromNotes.
      apply childFolderNamesFromNotes_from. right.
      split; [apply firstSegment_no_slash|]. exists id, rest. auto.
    + rewrite Hdeep. unfold startsWith.
      rewrite (append_slash _ rest). apply prefix_append.
  - intros (name & _ & P). unfold startsWith in P. apply prefix_split in P.
    rewrite P, <- append_slash in Hid.
    rewrite childFolderPath_deeper in Hid. apply childFolderPath_inj in Hid.
    rewrite <- Hid. apply includes_append_slash.
Qed.

End ChildFolderFacts.

Section FolderListingFacts.
Import Js Folders.

(** What one virtual folder adds to the child folder names. *)
Lemma childFolderFromVirtual_In folder names path x :
  In x (childFolderFromVirtual folder names path)
  <-> In x names
      \/ (includes slash x = false
          /\ (path = childFolderPath folder x
              \/ exists rest, path = childFolderPath folder x ++ String slash rest)).
Proof.
  assert (Hadd : forall below,
    path = childFolderPath folder below ->
    (In x (setAdd (firstSegment below) names)
     <-> In x names
         \/ (includes slash x = false
             /\ (path = childFolderPath folder x
                 \/ exists rest,
                      path = childFolderPath folder x ++ String slash rest)))).
  { intros below ->. rewrite setAdd_In.
    assert (Hsame : childFolderPath folder below = childFolderPath folder x
                    <-> below = x).
    { split; [apply childFolderPath_inj|congruence]. }
    assert (Hdeep : (exists rest,
                        childFolderPath folder below
                        = childFolderPath folder x ++ String slash rest)
                    <-> exists rest, below = x ++ String slash rest).
    { split; intros (rest & H); exists rest.
      - rewrite childFolderPath_deeper in H.
        apply childFolderPath_inj in H. exact H.
      - rewrite childFolderPath_deeper. congruence. }
    rewrite Hsame, Hdeep.
    destruct (firstSegment_decompose below) as [[E Hb]|[E (rest & Hrest)]].
    - split.
      + intros [->|H]; [right|left; exact H].
        split; [apply firstSegment_no_slash|]. left. exact Hb.
      + intros [H|[Hx [->|(rest & ->)]]]; [right; exact H|left|].
        * congruence.
        * rewrite includes_append_slash in E. discriminate.
    - split.
      + intros [->|H]; [right|left; exact H].
        split; [apply firstSegment_no_slash|]. right. exists rest. exact Hrest.
      + intros [H|[Hx [->|(rest' & H)]]]; [right; exact H| |left].
        * congruence.
        * apply (firstSegment_unique _ _ _ H Hx). }
  unfold childFolderFromVirtual.
  destruct (truthy folder) eqn:E; cbn [negb].
  - destruct (startsWith path (folder ++ "/")) eqn:P; cbn [negb].
    + apply Hadd. unfold childFolderPath. rewrite E. apply folder_rest, P.
    + split; [auto|]. intros [H|[_ H]]; [exact H|]. exfalso.
      assert (Hstarts : exists below, path = folder ++ String slash below).
      { destruct H as [->|(rest & ->)].
        - exists x. unfold childFolderPath. rewrite E. reflexivity.
        - exists (x ++ String slash rest). rewrite childFolderPath_deeper.
          unfold childFolderPath. rewrite E. reflexivity. }
      destruct Hstarts as (below & ->).
      rewrite startsWith_folder in P. discriminate.
  - apply Hadd. unfold childFolderPath. rewrite E. reflexivity.
Qed.

Lemma childFolderNamesFromVirtual_from folder virtualFolders names x :
  In x (fold_left (childFolderFromVirtual folder) virtualFolders names)
  <-> In x names
      \/ (includes slash x = false
          /\ exists path,
               In path virtualFolders
               /\ (path = childFolderPath folder x
                   \/ exists rest,
                        path = childFolderPath folder x ++ String slash rest)).
Proof.
  revert names. induction virtualFolders as [|q qs IH]; intros names;
    cbn [fold_left].
  - split; [auto|]. intros [H|[_ (q & [] & _)]]. exact H.
  - rewrite IH, childFolderFromVirtual_In. split.
    + intros [[H|[Hx H]]|[Hx (q' & Hin & H)]]; [auto| |].
      * right. split; [exact Hx|]. exists q. split; [left; reflexivity|exact H].
      * right. split; [exact Hx|]. exists q'. split; [right; exact Hin|exact H].
    + intros [H|[Hx (q' & [<-|Hin] & H)]]; [auto| |].
      * left. right. auto.
      * right. split; [exact Hx|]. exists q'. auto.
Qed.

(** X7: the folder rows of a folder view are distinct, and a name has a row
    exactly when it is slash-free and the folder of that name inside the
    current folder holds a note or is, or holds, a virtual folder. *)
Theorem child_folder_rows localeCompare noteIds virtualFolders folder :
  List.NoDup (childFolderNames localeCompare noteIds virtualFolders (Some folder))
  /\ forall name,
       In name (childFolderNames localeCompare noteIds virtualFolders (Some folder))
       <-> includes slash name = false
           /\ ((exists id rest,
                  In id noteIds
                  /\ id = childFolderPath folder name ++ "/" ++ rest)
               \/ (exists path,
                     In path virtualFolders
                     /\ (path = childFolderPath folder name
                         \/ exists rest,
                              path = childFolderPath folder name ++ "/" ++ rest))).
Proof.
  unfold childFolderNames. split.
  - apply sortBy_NoDup, setAdd_all_NoDup. constructor.
  - intros name. rewrite sortBy_In, setAdd_all_In, List.in_app_iff.
    unfold getChildFolderNamesFromNotes, getChildFolderNamesFromVirtual.
    rewrite childFolderNamesFromNotes_from, childFolderNamesFromVirtual_from.
    simpl. tauto.
Qed.

Lemma getFolderPrefixes_seq id :
  NoteId.getFolderPrefixes id
  = List.map (fun i => join "/" (firstn i (split slash id)))
             (seq 1 (length (split slash id) - 1)).
Proof.
  unfold NoteId.getFolderPrefixes.
  destruct (Nat.leb_spec (length (split slash id)) 1) as [Hle|]; [|reflexivity].
  replace (length (split slash id) - 1)%nat with 0%nat by lia. reflexivity.
Qed.

Lemma addFolderPrefixes_In paths id p :
  In p (addFolderPrefixes paths id)
  <-> In p paths \/ In p (NoteId.getFolderPrefixes id).
Proof.
  rewrite getFolderPrefixes_seq. unfold addFolderPrefixes.
  generalize (seq 1 (length (split slash id) - 1)). intros l. revert paths.
  induction l as [|i l IH]; intros paths; cbn [fold_left List.map].
  - simpl. tauto.
  - rewrite IH, setAdd_In. simpl. intuition congruence.
Qed.

Lemma addFolderPrefixes_NoDup paths id :
  List.NoDup paths -> List.NoDup (addFolderPrefixes paths id).
Proof.
  unfold addFolderPrefixes.
  generalize (seq 1 (length (split slash id) - 1)). intros l. revert paths.
  induction l as [|i l IH]; intros paths Hnd; cbn [fold_left]; [exact Hnd|].
  apply IH, setAdd_NoDup, Hnd.
Qed.

Lemma allPrefixes_In noteIds paths p :
  In p (fold_left addFolderPrefixes noteIds paths)
  <-> In p paths
      \/ exists id, In id noteIds /\ In p (NoteId.getFolderPrefixes id).
Proof.
  revert paths. induction noteIds as [|id ids IH]; intros paths; cbn [fold_left].
  - split; [auto|]. intros [H|(id & [] & _)]. exact H.
  - rewrite IH, addFolderPrefixes_In. split.
    + intros [[H|H]|(id' & Hin & H)]; [auto| |].
      * right. exists id. split; [left; reflexivity|exact H].
      * right. exists id'. split; [right; exact Hin|exact H].
    + intros [H|(id' & [<-|Hin] & H)]; [auto|auto|].
      right. exists id'. auto.
Qed.

Lemma allPrefixes_NoDup noteIds paths :
  List.NoDup paths -> List.NoDup (fold_left addFolderPrefixes noteIds paths).
Proof.
  revert paths. induction noteIds as [|id ids IH]; intros paths Hnd;
    cbn [fold_left]; [exact Hnd|]. apply IH, addFolderPrefixes_NoDup, Hnd.
Qed.

(** X8: the folders offered by the move picker are distinct, and a path is
    offered exactly when it is a proper ancestor folder of some note or a
    virtual folder. *)
Theorem all_folder_paths localeCompare noteIds virtualFolders :
  List.NoDup (getAllFolderPaths localeCompare noteIds virtualFolders)
  /\ forall p,
       In p (getAllFolderPaths localeCompare noteIds virtualFolders)
       <-> (exists id rest, In id noteIds /\ id = p ++ "/" ++ rest)
           \/ In p virtualFolders.
Proof.
  unfold getAllFolderPaths. split.
  - apply sortBy_NoDup, setAdd_all_NoDup, allPrefixes_NoDup. constructor.
  - intros p. rewrite sortBy_In, setAdd_all_In, allPrefixes_In. simpl. split.
    + intros [H|[[]|(id & Hin & H)]]; [right; exact H|left].
      apply getFolderPrefixes_ancestors in H as (rest & H). exists id, rest. auto.
    + intros [(id & rest & Hin & H)|H]; [right; right|left; exact H].
      exists id. split; [exact Hin|].
      apply getFolderPrefixes_ancestors. exists rest. exact H.
Qed.

(** X9: for a folder path without empty segments, the breadcrumb buttons
    lead to its ancestor folders, outermost first, and then to the folder
    itself. *)
Theorem breadcrumbs_are_ancestors_then_self folder :
  folder <> EmptyString ->
  Forall (fun segment => truthy segment = true) (split slash folder) ->
  breadcrumbPaths (Some folder)
  = (NoteId.getFolderPrefixes folder ++ [folder])%list.
Proof.
  intros Hne Hall. unfold breadcrumbPaths, folderSegments.
  apply String.eqb_neq in Hne. rewrite Hne. cbn [negb].
  assert (Hsegs : List.filter truthy (split slash folder) = split slash folder).
  { induction Hall as [|t l Ht _ IH]; [reflexivity|].
    cbn [List.filter]. rewrite Ht, IH. reflexivity. }
  rewrite Hsegs, getFolderPrefixes_seq.
  set (parts := split slash folder).
  assert (Hlen : 0 < length parts)
    by (apply nonempty_length, split_nonempty).
  replace (length parts) with (S (length parts - 1)) at 1 by lia.
  rewrite List.seq_S, List.map_app. cbn [List.map]. f_equal.
  - rewrite <- List.seq_shift, List.map_map.
    apply List.map_ext. intros i. rewrite Nat.add_1_r. reflexivity.
  - rewrite Nat.add_0_l.
    replace (length parts - 1 + 1)%nat with (length parts) by lia.
    rewrite List.firstn_all. unfold parts. rewrite join_split. reflexivity.
Qed.

End FolderListingFacts.

(** ** The ledger of virtual folders *)

Section LedgerFacts.
Import Js Folders.
Context {U : NoteUtils}.
Variable localeCompare : string -> string -> Z.

Lemma declareFolder_In folderPath prev p :
  In p (declareFolder localeCompare folderPath prev)
  <-> p = folderPath \/ In p prev.
Proof.
  unfold declareFolder. case_bool_decide as E.
  - apply list_elem_of_In in E. split; [auto|]. intros [->|H]; assumption.
  - rewrite sortBy_In, List.in_app_iff. simpl. intuition congruence.
Qed.

Lemma declareFolder_NoDup folderPath prev :
  List.NoDup prev -> List.NoDup (declareFolder localeCompare folderPath prev).
Proof.
  intros Hnd. unfold declareFolder. case_bool_decide as E; [exact Hnd|].
  apply sortBy_NoDup. apply NoDup_ListNoDup. apply NoDup_ListNoDup in Hnd.
  apply NoDup_app. split; [exact Hnd|]. split.
  - intros z Hz ->%list_elem_of_singleton. exact (E Hz).
  - apply NoDup_singleton.
Qed.

Lemma insertBy_HdRel_generic e a l :
  inOrder localeCompare a e -> HdRel (inOrder localeCompare) a l ->
  HdRel (inOrder localeCompare) a (TagCloud.insertBy localeCompare e l).
Proof.
  intros Hae Hl. destruct l as [|x l]; simpl; [constructor; exact Hae|].
  destruct (0 <? localeCompare e x)%Z.
  - inversion Hl; subst. constructor. assumption.
  - constructor. exact Hae.
Qed.

Lemma sortBy_Sorted_generic l :
  consistentComparator localeCompare ->
  Sorted (inOrder localeCompare) (TagCloud.sortBy localeCompare l).
Proof.
  intros [Hasym _]. induction l as [|e l IH]; simpl; [constructor|].
  revert IH. generalize (TagCloud.sortBy localeCompare l). clear l.
  induction 1 as [|x l Hl IH Hhd]; simpl; [repeat constructor|].
  destruct (0 <? localeCompare e x)%Z eqn:E.
  - constructor; [exact IH|]. apply insertBy_HdRel_generic; [|exact Hhd].
    apply Z.ltb_lt in E. apply Hasym, E.
  - constructor; [constructor; assumption|]. constructor.
    apply Z.ltb_ge in E. exact E.
Qed.

Lemma StronglySorted_List_filter {A} (R : A -> A -> Prop) (f : A -> bool) l :
  StronglySorted R l -> StronglySorted R (List.filter f l).
Proof.
  induction 1 as [|x l Hl IH Hx]; simpl; [constructor|].
  destruct (f x); [|exact IH]. constructor; [exact IH|].
  rewrite List.Forall_forall in *. intros y [Hy _]%List.filter_In. auto.
Qed.

Lemma ledgerInOrder_filter (f : string -> bool) ledger :
  ledgerInOrder localeCompare ledger ->
  ledgerInOrder localeCompare (List.filter f ledger).
Proof.
  intros [Hs Hnd]. split; [apply StronglySorted_List_filter, Hs|].
  apply List.NoDup_filter, Hnd.
Qed.

Lemma ledgerInOrder_declare folderPath ledger :
  consistentComparator localeCompare ->
  ledgerInOrder localeCompare ledger ->
  ledgerInOrder localeCompare (declareFolder localeCompare folderPath ledger).
Proof.
  intros Hc [Hs Hnd]. split; [|apply declareFolder_NoDup, Hnd].
  unfold declareFolder. case_bool_decide; [exact Hs|].
  apply Sorted_StronglySorted; [exact (proj2 Hc)|].
  apply sortBy_Sorted_generic, Hc.
Qed.

Lemma reconcile_filter savedNoteId prev :
  exists f, reconcile savedNoteId prev = List.filter f prev.
Proof.
  unfold reconcile.
  destruct (0 <? length (NoteId.getFolderPrefixes savedNoteId))%nat.
  - eexists. reflexivity.
  - exists (fun _ => true). induction prev as [|a l IH]; simpl; congruence.
Qed.

Lemma move_ledger_filter noteIds targetFolder w :
  exists f,
    virtualFolders (snd (moveNotesToFolder noteIds targetFolder w))
    = List.filter f (virtualFolders w).
Proof.
  assert (Hid : exists f, virtualFolders w = List.filter f (virtualFolders w)).
  { exists (fun _ => true).
    induction (virtualFolders w) as [|a l IH]; simpl; congruence. }
  unfold moveNotesToFolder.
  destruct (moveCollect (markdownFiles w) noteIds targetFolder) as [moved skipped].
  destruct (length moved =? 0)%nat; [exact Hid|].
  cbn [snd send virtualFolders].
  destruct (0 <? size (folderPrefixesToRemove moved))%nat; [|exact Hid].
  eexists. reflexivity.
Qed.

Lemma createNewFolder_cases currentFolder userInput w :
  (exists outcome,
      createNewFolder localeCompare currentFolder userInput w = (outcome, w)
      /\ forall p, outcome <> FolderOpened p)
  \/ (exists slug,
        userInput <> None
        /\ slug = NoteId.toSlug (trim (default EmptyString userInput))
        /\ slug <> EmptyString
        /\ isValidNoteId (childFolderPath (default EmptyString currentFolder) slug)
           = true
        /\ createNewFolder localeCompare currentFolder userInput w
           = (FolderOpened (childFolderPath (default EmptyString currentFolder) slug),
              setVirtualFolders
                (declareFolder localeCompare
                   (childFolderPath (default EmptyString currentFolder) slug))
                w)).
Proof.
  unfold createNewFolder.
  destruct userInput as [input|]; [|left; eexists; split; [reflexivity|discriminate]].
  destruct (truthy (trim input)) eqn:Et; cbn [negb];
    [|left; eexists; split; [reflexivity|discriminate]].
  destruct (truthy (NoteId.toSlug (trim input))) eqn:Es; cbn [negb];
    [|left; eexists; split; [reflexivity|discriminate]].
  assert (Hpath :
    match currentFolder with
    | Some folder =>
        if truthy folder then folder ++ "/" ++ NoteId.toSlug (trim input)
        else NoteId.toSlug (trim input)
    | None => NoteId.toSlug (trim input)
    end
    = childFolderPath (default EmptyString currentFolder)
        (NoteId.toSlug (trim input))).
  { destruct currentFolder as [folder|]; reflexivity. }
  rewrite Hpath.
  destruct (isValidNoteId _) eqn:Ev; cbn [negb];
    [|left; eexists; split; [reflexivity|discriminate]].
  right. exists (NoteId.toSlug (trim input)).
  split; [discriminate|]. split; [reflexivity|].
  split; [apply truthy_true, Es|]. split; [exact Ev|reflexivity].
Qed.

(** X10: reconciling is idempotent, and reconciling two saved ids gives the
    same ledger in either order. *)
Theorem reconcile_idempotent_and_commutative a b prev :
  reconcile a (reconcile a prev) = reconcile a prev
  /\ reconcile a (reconcile b prev) = reconcile b (reconcile a prev).
Proof.
  assert (Hff : forall (f g : string -> bool) l,
             List.filter f (List.filter g l) = List.filter g (List.filter f l)).
  { intros f g l. induction l as [|x l IH]; simpl; [reflexivity|].
    destruct (f x) eqn:Ef, (g x) eqn:Eg; simpl; rewrite ?Ef, ?Eg, IH; reflexivity. }
  assert (Hf : forall (f : string -> bool) l,
             List.filter f (List.filter f l) = List.filter f l).
  { intros f l. induction l as [|x l IH]; simpl; [reflexivity|].
    destruct (f x) eqn:Ef; simpl; rewrite ?Ef, IH; reflexivity. }
  unfold reconcile. split.
  - destruct (0 <? length (NoteId.getFolderPrefixes a))%nat; [apply Hf|reflexivity].
  - destruct (0 <? length (NoteId.getFolderPrefixes a))%nat,
             (0 <? length (NoteId.getFolderPrefixes b))%nat;
      try reflexivity. apply Hff.
Qed.

(** X11: creating a folder only touches the ledger: nothing is sent and the
    file set is as before.  When the folder is opened, its path passed
    [isValidNoteId], it is in the ledger, and the ledger has gained nothing
    else. *)
Theorem create_folder_changes_ledger_only currentFolder userInput w :
  let r := createNewFolder localeCompare currentFolder userInput w in
  sent (snd r) = sent w
  /\ markdownFiles (snd r) = markdownFiles w
  /\ match fst r with
     | FolderOpened folderPath =>
         isValidNoteId folderPath = true
         /\ forall p, In p (virtualFolders (snd r))
                      <-> p = folderPath \/ In p (virtualFolders w)
     | _ => snd r = w
     end.
Proof.
  intros r. subst r.
  destruct (createNewFolder_cases currentFolder userInput w)
    as [(outcome & E & Hno)|(slug & _ & _ & _ & Hv & E)]; rewrite E; cbn [fst snd].
  - split; [reflexivity|]. split; [reflexivity|].
    destruct outcome as [| |p]; [reflexivity|reflexivity|].
    exfalso. exact (Hno p eq_refl).
  - split; [reflexivity|]. split; [reflexivity|]. split; [exact Hv|].
    intros p. apply declareFolder_In.
Qed.

(** X12: creating the same folder twice in a row leaves the ledger as after
    the first time. *)
Theorem create_folder_twice currentFolder userInput w :
  let w1 := snd (createNewFolder localeCompare currentFolder userInput w) in
  snd (createNewFolder localeCompare currentFolder userInput w1) = w1.
Proof.
  intros w1. subst w1.
  destruct (createNewFolder_cases currentFolder userInput w)
    as [(outcome & E & _)|(slug & Hin & Hslug & Hne & Hv & E)]; rewrite E;
    cbn [snd].
  - rewrite E. reflexivity.
  - set (p := childFolderPath (default EmptyString currentFolder) slug) in *.
    destruct (createNewFolder_cases currentFolder userInput
                (setVirtualFolders (declareFolder localeCompare p) w))
      as [(outcome & E' & _)|(slug' & _ & Hslug' & _ & _ & E')]; rewrite E';
      cbn [snd]; [reflexivity|].
    rewrite <- Hslug in Hslug'. subst slug'. fold p.
    unfold setVirtualFolders. cbn [markdownFiles virtualFolders sent].
    f_equal. unfold declareFolder at 1.
    rewrite bool_decide_eq_true_2; [reflexivity|].
    apply list_elem_of_In, declareFolder_In. left. reflexivity.
Qed.

(** X13: a folder that was just created has a row in the listing of the
    folder it was created in: the row of its first new segment, which leads
    to the new folder or to an ancestor of it. *)
Theorem created_folder_is_listed currentFolder userInput w noteIds folderPath :
  fst (createNewFolder localeCompare currentFolder userInput w)
  = FolderOpened folderPath ->
  let folder := default EmptyString currentFolder in
  let w1 := snd (createNewFolder localeCompare currentFolder userInput w) in
  exists name,
    In name (childFolderNames localeCompare noteIds (virtualFolders w1)
               (Some folder))
    /\ (folderPath = childFolderPath folder name
        \/ exists rest, folderPath = childFolderPath folder name ++ "/" ++ rest).
Proof.
  intros Hopen folder w1. subst w1.
  destruct (createNewFolder_cases currentFolder userInput w)
    as [(outcome & E & Hno)|(slug & _ & _ & _ & _ & E)]; rewrite E in *;
    cbn [fst snd] in *.
  - exfalso. exact (Hno _ Hopen).
  - injection Hopen as <-. fold folder.
    assert (Hname : childFolderPath folder slug
                    = childFolderPath folder (firstSegment slug)
                    \/ exists rest,
                         childFolderPath folder slug
                         = childFolderPath folder (firstSegment slug)
                           ++ String slash rest).
    { destruct (firstSegment_decompose slug) as [[_ H]|[_ (rest & H)]].
      - left. congruence.
      - right. exists rest. rewrite childFolderPath_deeper. congruence. }
    exists (firstSegment slug). split; [|exact Hname].
    unfold childFolderNames.
    rewrite sortBy_In, setAdd_all_In, List.in_app_iff. left. right.
    unfold getChildFolderNamesFromVirtual.
    apply childFolderNamesFromVirtual_from. right.
    split; [apply firstSegment_no_slash|].
    exists (childFolderPath folder slug). split; [|exact Hname].
    cbn [setVirtualFolders virtualFolders]. apply declareFolder_In. left; reflexivity.
Qed.

(** X14: a created folder stays in the ledger until a note is saved below
    it: it is there after the creation and gone after such a save. *)
Theorem created_folder_leaves_ledger_on_save
    currentFolder userInput w folderPath stamp below content :
  fst (createNewFolder localeCompare currentFolder userInput w)
  = FolderOpened folderPath ->
  let w1 := snd (createNewFolder localeCompare currentFolder userInput w) in
  In folderPath (virtualFolders w1)
  /\ ~ In folderPath
       (virtualFolders (saveNote stamp (folderPath ++ "/" ++ below) content w1)).
Proof.
  intros Hopen w1. subst w1.
  destruct (createNewFolder_cases currentFolder userInput w)
    as [(outcome & E & Hno)|(slug & _ & _ & _ & _ & E)]; rewrite E in *;
    cbn [fst snd] in *.
  - exfalso. exact (Hno _ Hopen).
  - injection Hopen as <-. split.
    + cbn [setVirtualFolders virtualFolders]. apply declareFolder_In. left; reflexivity.
    + cbn [saveNote setVirtualFolders send virtualFolders].
      intros [_ Hnot]%reconcile_In. apply Hnot.
      apply getFolderPrefixes_ancestors. exists below. reflexivity.
Qed.

(** X15: with a consistent comparator, a ledger that is sorted and free of
    repeats stays so under every operation that touches it: creating a
    folder, saving, renaming and moving notes. *)
Theorem ledger_stays_in_order w :
  consistentComparator localeCompare ->
  ledgerInOrder localeCompare (virtualFolders w) ->
  (forall currentFolder userInput,
      ledgerInOrder localeCompare
        (virtualFolders (snd (createNewFolder localeCompare currentFolder userInput w))))
  /\ (forall stamp id content,
        ledgerInOrder localeCompare (virtualFolders (saveNote stamp id content w)))
  /\ (forall oldName newName content,
        ledgerInOrder localeCompare
          (virtualFolders (snd (renameNote oldName newName content w))))
  /\ (forall noteIds targetFolder,
        ledgerInOrder localeCompare
          (virtualFolders (snd (moveNotesToFolder noteIds targetFolder w)))).
Proof.
  intros Hc Hl. split; [|split; [|split]].
  - intros currentFolder userInput.
    destruct (createNewFolder_cases currentFolder userInput w)
      as [(outcome & E & _)|(slug & _ & _ & _ & _ & E)]; rewrite E; cbn [snd].
    + exact Hl.
    + cbn [setVirtualFolders virtualFolders].
      apply ledgerInOrder_declare; assumption.
  - intros stamp id content. cbn [saveNote setVirtualFolders send virtualFolders].
    destruct (reconcile_filter id (virtualFolders w)) as (f & ->).
    apply ledgerInOrder_filter, Hl.
  - intros oldName newName content.
    destruct (renameNote_cases oldName newName content w)
      as [[_ E]|[_ [[_ E]|[_ [[_ E]|[_ E]]]]]]; rewrite E; exact Hl.
  - intros noteIds targetFolder.
    destruct (move_ledger_filter noteIds targetFolder w) as (f & ->).
    apply ledgerInOrder_filter, Hl.
Qed.

End LedgerFacts.

(** ** More on moves *)

Section MoveMoreFacts.
Import Js Folders.
Context {U : NoteUtils}.

Lemma last_app_nonempty {A} (l1 l2 : list A) d :
  l2 <> [] -> List.last (l1 ++ l2) d = List.last l2 d.
Proof.
  intros Hne. induction l1 as [|a l1 IH]; [reflexivity|].
  cbn [app]. destruct (l1 ++ l2)%list eqn:E.
  - apply List.app_eq_nil in E as [_ ?]. congruence.
  - rewrite <- IH. reflexivity.
Qed.

Lemma lastSegment_childFolderPath folder name :
  includes slash name = false ->
  lastSegment (childFolderPath folder name) = name.
Proof.
  intros Hname. unfold lastSegment, childFolderPath.
  destruct (truthy folder).
  - change (folder ++ "/" ++ name) with (folder ++ String slash name).
    rewrite split_app, last_app_nonempty by apply split_nonempty.
    rewrite (split_no_sep_single _ _ Hname). reflexivity.
  - rewrite (split_no_sep_single _ _ Hname). reflexivity.
Qed.

(** A direct child of the target folder would be moved onto itself. *)
Lemma destination_of_direct_child targetFolder id :
  isDirectChildNote id targetFolder = true ->
  destinationId targetFolder id = id.
Proof.
  intros (name & -> & Hname)%direct_child_elim.
  assert (H : forall x, destinationId targetFolder x
                        = childFolderPath targetFolder (basename x))
    by reflexivity.
  rewrite H, basename_lastSegment, lastSegment_childFolderPath by exact Hname.
  reflexivity.
Qed.

Lemma classify_direct_child files targetFolder id :
  isDirectChildNote id targetFolder = true ->
  classify files targetFolder id
  = match files !! storageKey id with Some _ => Omitted | None => Skipped end.
Proof.
  intros Hd. unfold classify.
  rewrite <- destinationId_relocatedId, (destination_of_direct_child _ _ Hd).
  rewrite String.eqb_refl. reflexivity.
Qed.

(** What the move hands over: nothing when no id is queued, one batch
    otherwise. *)
Lemma moveNotesToFolder_sent noteIds targetFolder w :
  let moved := fst (moveCollect (markdownFiles w) noteIds targetFolder) in
  (moved = [] /\ snd (moveNotesToFolder noteIds targetFolder w) = w)
  \/ (moved <> []
      /\ exists msg,
           sent (snd (moveNotesToFolder noteIds targetFolder w))
           = (sent w ++ [ {| wf_markdownFiles := moveBatch (markdownFiles w) moved;
                             wf_commitMessage := msg |} ])%list).
Proof.
  intros moved. subst moved. unfold moveNotesToFolder.
  destruct (moveCollect (markdownFiles w) noteIds targetFolder) as [moved skipped].
  cbn [fst]. destruct moved as [|m moved]; [left; split; reflexivity|right].
  split; [discriminate|]. cbn [length Nat.eqb snd]. eexists.
  cbn [send sent].
  destruct (0 <? size (folderPrefixesToRemove (m :: moved)))%nat; reflexivity.
Qed.

(** X16: moving notes to the folder they already are direct children of does
    nothing: no batch is sent, the ledger is untouched, no move is counted,
    and only the ids without a file are reported as skipped. *)
Theorem move_within_own_folder_is_noop noteIds targetFolder w :
  Forall (fun id => isDirectChildNote id targetFolder = true) noteIds ->
  snd (moveNotesToFolder noteIds targetFolder w) = w
  /\ fst (moveNotesToFolder noteIds targetFolder w)
     = MoveSuccess 0
         (List.filter
            (fun id => negb (bool_decide (is_Some (markdownFiles w !! storageKey id))))
            noteIds).
Proof.
  intros Hall.
  assert (Hq : idsOfClass (markdownFiles w) targetFolder Queued noteIds = []
               /\ idsOfClass (markdownFiles w) targetFolder Skipped noteIds
                  = List.filter
                      (fun id => negb (bool_decide
                                   (is_Some (markdownFiles w !! storageKey id))))
                      noteIds).
  { unfold idsOfClass. induction Hall as [|id ids Hid _ [IH1 IH2]];
      [split; reflexivity|].
    cbn [List.filter]. rewrite (classify_direct_child _ _ _ Hid).
    destruct (markdownFiles w !! storageKey id) as [c|] eqn:E; cbn [sameClass].
    - rewrite bool_decide_eq_true_2 by (exists c; reflexivity).
      cbn [negb]. split; assumption.
    - rewrite bool_decide_eq_false_2 by (intros [? ?]; discriminate).
      cbn [negb]. split; [assumption|]. rewrite IH2. reflexivity. }
  destruct Hq as [Hq Hs]. split.
  - destruct (moveNotesToFolder_sent noteIds targetFolder w) as [[_ E]|[Hne _]];
      [exact E|].
    exfalso. apply Hne. rewrite moveCollect_classify. cbn [fst].
    rewrite Hq. reflexivity.
  - rewrite moveNotesToFolder_result, Hq, Hs. reflexivity.
Qed.

Lemma classify_queued_inv files targetFolder id :
  classify files targetFolder id = Queued ->
  is_Some (files !! storageKey id)
  /\ files !! storageKey (relocatedId targetFolder id) = None
  /\ isValidNoteId (relocatedId targetFolder id) = true
  /\ relocatedId targetFolder id <> id.
Proof.
  unfold classify.
  destruct (files !! storageKey id) as [c|]; [|discriminate].
  destruct (String.eqb_spec (relocatedId targetFolder id) id) as [|Hne];
    [discriminate|].
  destruct (isValidNoteId (relocatedId targetFolder id)); [|discriminate].
  cbn [negb]. rewrite storageKey_eqb.
  destruct (String.eqb_spec (relocatedId targetFolder id) id); [contradiction|].
  rewrite andb_true_r. case_bool_decide as E; [discriminate|].
  intros _. split; [eauto|]. split; [|auto].
  destruct (files !! storageKey (relocatedId targetFolder id)) eqn:E';
    [|reflexivity]. exfalso. apply E. eauto.
Qed.

(** The queue: every entry comes from an input id whose file exists and
    goes to a key the snapshot does not hold. *)
Lemma moveCollect_items files noteIds targetFolder :
  List.Forall
    (fun m => In (mv_oldId m) noteIds
              /\ files !! storageKey (mv_oldId m) = Some (mv_content m)
              /\ files !! storageKey (mv_newId m) = None
              /\ mv_newId m = destinationId targetFolder (mv_oldId m))
    (fst (moveCollect files noteIds targetFolder)).
Proof.
  rewrite moveCollect_classify. cbn [fst]. apply List.Forall_forall.
  intros m (id & <- & Hin)%List.in_map_iff.
  unfold idsOfClass in Hin. apply List.filter_In in Hin as [Hin Hc].
  assert (Hq : classify files targetFolder id = Queued)
    by (destruct (classify files targetFolder id); simpl in Hc; congruence).
  apply classify_queued_inv in Hq as ([c Hc'] & Hfree & _ & _).
  unfold queuedItem. cbn [mv_oldId mv_newId mv_content].
  rewrite Hc'. cbn [default]. rewrite destinationId_relocatedId. auto.
Qed.

Lemma moveRelocate_lookup moved updated k :
  List.Forall (fun m => storageKey (mv_newId m) <> k) moved ->
  moveRelocate moved updated !! k
  = if existsb (fun m => String.eqb (storageKey (mv_oldId m)) k) moved
    then Some None else updated !! k.
Proof.
  unfold moveRelocate. intros H. revert updated.
  induction H as [|m moved Hm _ IH]; intros updated; [reflexivity|].
  cbn [fold_left existsb]. rewrite IH.
  destruct (existsb _ moved); [rewrite orb_true_r; reflexivity|].
  rewrite orb_false_r.
  destruct (String.eqb_spec (storageKey (mv_oldId m)) k) as [->|Hne].
  - apply lookup_insert_eq.
  - rewrite lookup_insert_ne by exact Hne.
    rewrite lookup_insert_ne by exact Hm. reflexivity.
Qed.

(** X17: a move never puts another note's content over an existing file.
    After the batch, a file of the snapshot is gone when it is the file of
    a queued id, and otherwise holds its own content with every queued
    rewrite applied. *)
Theorem move_keeps_existing_files noteIds targetFolder w e k c :
  let files := markdownFiles w in
  let moved := fst (moveCollect files noteIds targetFolder) in
  sent (snd (moveNotesToFolder noteIds targetFolder w)) = (sent w ++ [e])%list ->
  files !! k = Some c ->
  applyBatch (wf_markdownFiles e) files !! k
  = if existsb (fun m => String.eqb (storageKey (mv_oldId m)) k) moved
    then None else Some (rewriteAll moved c).
Proof.
  intros files moved Hsent Hk.
  destruct (moveNotesToFolder_sent noteIds targetFolder w)
    as [[_ E]|[_ (msg & E)]].
  - rewrite E in Hsent. exfalso.
    apply (f_equal (@length _)) in Hsent. rewrite List.length_app in Hsent.
    simpl in Hsent. lia.
  - rewrite E in Hsent. apply List.app_inj_tail in Hsent as [_ <-].
    cbn [wf_markdownFiles]. fold files moved.
    rewrite applyBatch_lookup. unfold moveBatch.
    rewrite moveRelocate_lookup.
    + destruct (existsb _ moved); [reflexivity|].
      rewrite moveRewrites_lookup, Hk.
      destruct (String.eqb_spec (rewriteAll moved c) c) as [E'|_];
        [rewrite E'|]; reflexivity.
    + pose proof (moveCollect_items files noteIds targetFolder) as Hitems.
      fold moved in Hitems. eapply List.Forall_impl; [|exact Hitems].
      intros m (_ & _ & Hfree & _) Heq. rewrite Heq in Hfree. congruence.
Qed.

End MoveMoreFacts.

(** ** Rename, once the batch is applied *)

Section RenameAppliedFacts.
Context {U : NoteUtils}.

(** X18: after a successful rename and its batch, the new key holds the
    given content rewritten for self-references, the old key holds nothing,
    and every other key holds what it held before with the links rewritten:
    no other file appears or disappears. *)
Theorem rename_applied oldName newName content w :
  fst (renameNote oldName newName content w) = RenameSuccess ->
  exists e,
    sent (snd (renameNote oldName newName content w)) = (sent w ++ [e])%list
    /\ let files' := applyBatch (wf_markdownFiles e) (markdownFiles w) in
       files' !! storageKey newName
       = Some (updateWikilinks content oldName newName)
       /\ files' !! storageKey oldName = None
       /\ forall k,
            k <> storageKey newName -> k <> storageKey oldName ->
            files' !! k
            = (fun c => updateWikilinks c oldName newName)
                <$> markdownFiles w !! k.
Proof.
  intros Hok.
  destruct (renameNote_cases oldName newName content w)
    as [[Hc E]|[(Ho & Hn & Hon) [[Hv E]|[Hv [[Hd E]|[Hd E]]]]]];
    rewrite E in *; simpl in Hok; try discriminate.
  eexists. split; [reflexivity|]. cbn [wf_markdownFiles].
  assert (Hkeys : storageKey newName <> storageKey oldName)
    by (intros K; apply Hon; symmetry; apply storageKey_inj, K).
  split; [|split].
  - rewrite applyBatch_lookup, renameBatch_lookup by exact Hon.
    destruct (String.eqb_spec (storageKey newName) (storageKey oldName));
      [contradiction|].
    rewrite String.eqb_refl. reflexivity.
  - rewrite applyBatch_lookup, renameBatch_lookup, String.eqb_refl by exact Hon.
    unfold hasOwnProperty. case_bool_decide as Ex; [reflexivity|].
    destruct (markdownFiles w !! storageKey oldName) eqn:Eo; [|reflexivity].
    exfalso. apply Ex. eauto.
  - intros k Hkn Hko. rewrite applyBatch_lookup, renameBatch_lookup by exact Hon.
    destruct (String.eqb_spec k (storageKey oldName)); [contradiction|].
    destruct (String.eqb_spec k (storageKey newName)); [contradiction|].
    destruct (markdownFiles w !! k) as [c|]; [|reflexivity].
    simpl.
    destruct (String.eqb_spec (updateWikilinks c oldName newName) c) as [E'|_];
      [rewrite E'|]; reflexivity.
Qed.

End RenameAppliedFacts.

(** ** The backlink selector *)

(** X19: [shallowEqualBacklinks] holds exactly for arrays with the same ids in
    the same order, so the selector keeps its old value exactly then. *)
Theorem shallowEqualBacklinks_iff_equal a b :
  shallowEqualBacklinks a b = true <-> a = b.
Proof.
  unfold shallowEqualBacklinks. split.
  - destruct (Nat.eqb_spec (length a) (length b)) as [Hlen|]; cbn [negb];
      [|discriminate].
    intros H. rewrite List.forallb_forall in H.
    apply (List.nth_ext _ _ EmptyString EmptyString Hlen).
    intros i Hi. apply String.eqb_eq, H, List.in_seq. lia.
  - intros <-. rewrite Nat.eqb_refl. cbn [negb].
    apply List.forallb_forall. intros i _. apply String.eqb_refl.
Qed.

(** ** More on the tag cloud *)

Section TagMoreFacts.
Import TagCloud.

Lemma sum_bump tag m :
  list_sum (List.map snd (bump tag m)) = S (list_sum (List.map snd m)).
Proof.
  induction m as [|[k n] m IH]; simpl; [reflexivity|].
  destruct (String.eqb k tag); simpl; [reflexivity|]. rewrite IH. lia.
Qed.

Lemma sum_frequencies tags m :
  list_sum (List.map snd (fold_left (fun m tag => bump tag m) tags m))
  = (length tags + list_sum (List.map snd m))%nat.
Proof.
  revert m. induction tags as [|t tags IH]; intros m; simpl; [reflexivity|].
  rewrite IH, sum_bump. lia.
Qed.

Lemma NoDup_keys_filter (f : string * nat -> bool) (m : list (string * nat)) :
  List.NoDup (List.map fst m) -> List.NoDup (List.map fst (List.filter f m)).
Proof.
  induction m as [|e m IH]; simpl; [auto|].
  intros Hnd. inversion Hnd as [|? ? Hnotin Hnd']; subst.
  destruct (f e); auto. simpl. constructor; [|auto].
  intros Hin. apply Hnotin.
  apply List.in_map_iff in Hin as (e' & He & Hin).
  apply List.filter_In in Hin as [Hin _].
  apply List.in_map_iff. exists e'. auto.
Qed.

(** X20: the frequency map counts every tag occurrence once: its counts add
    up to the number of tags over all notes.  The displayed tags are
    distinct, each with a count of at least one and below the number of
    notes, so a result set of at most one note displays no tag. *)
Theorem tag_cloud_invariants R :
  list_sum (List.map snd (frequencyEntries R)) = length (allTags R)
  /\ List.NoDup (List.map fst (sortedTagFrequencies R))
  /\ (forall tag count,
        In (tag, count) (sortedTagFrequencies R) ->
        0 < count < length R /\ In tag (allTags R))
  /\ (length R <= 1 -> sortedTagFrequencies R = []).
Proof.
  assert (Hshown : forall tag count,
             In (tag, count) (sortedTagFrequencies R) ->
             0 < count < length R /\ In tag (allTags R)).
  { intros tag count (Hin & Hb & _)%displayed_In.
    apply entries_In in Hin as [Hocc Hpos].
    unfold belowAll in Hb. apply Nat.ltb_lt in Hb. simpl in Hb.
    split; [lia|].
    destruct (List.in_dec string_dec tag (allTags R)) as [|Hnot]; [assumption|].
    rewrite (occurrences_absent _ _ Hnot) in Hocc. lia. }
  split; [|split; [|split; [exact Hshown|]]].
  - unfold frequencyEntries. rewrite sum_frequencies. simpl. lia.
  - unfold sortedTagFrequencies, prunedTagFrequencies.
    eapply Permutation_NoDup.
    + apply Permutation_map, Permutation_sym, sortBy_Permutation.
    + apply NoDup_keys_filter, NoDup_keys_filter, (wellFormed_entries R).
  - intros Hle. destruct (sortedTagFrequencies R) as [|[tag count] l] eqn:E;
      [reflexivity|].
    destruct (Hshown tag count) as [Hc _]; [left; reflexivity|lia].
Qed.

End TagMoreFacts.

(** ** Slugs of arbitrary input *)

Section SlugShapeFacts.
Import Js NoteId.

Local Ltac by_char c :=
  destruct c as [[] [] [] [] [] [] [] []]; vm_compute; intros; congruence.

Lemma lowerChar_slugged c :
  Ascii.eqb c slash = false ->
  (Ascii.eqb (lowerChar (lowerChar c)) (lowerChar c)
   && negb (Ascii.eqb (lowerChar c) slash)) = true.
Proof. by_char c. Qed.

Lemma sluggedChar_intro c :
  (Ascii.eqb (lowerChar c) c && negb (Ascii.eqb c slash)) = true ->
  isSpace c = false -> sluggedChar c = true.
Proof. unfold sluggedChar. intros H ->. rewrite <- andb_assoc. exact H. Qed.

Lemma sluggedChar_elim c :
  sluggedChar c = true ->
  isSpace c = false /\ lowerChar c = c /\ Ascii.eqb c slash = false.
Proof.
  unfold sluggedChar.
  intros [[H1%negb_true_iff H2%Ascii.eqb_eq]%andb_prop H3%negb_true_iff]%andb_prop.
  auto.
Qed.

Lemma no_slash_all_chars s :
  includes slash s = false ->
  all_chars (fun c => negb (Ascii.eqb c slash)) s = true.
Proof.
  induction s as [|c s IH]; simpl; [reflexivity|].
  intros [E Hs]%orb_false_elim. rewrite E, (IH Hs). reflexivity.
Qed.

Lemma slugged_chars s :
  includes slash s = false -> all_chars sluggedChar (slugifySegment s) = true.
Proof.
  intros Hs. unfold slugifySegment, stripEdgeDashes.
  apply stripTrailingDash_all_chars, stripLeadingDash_all_chars,
    collapseDashes_all_chars.
  apply replaceSpaceRuns_all_chars
    with (p := fun c => Ascii.eqb (lowerChar c) c && negb (Ascii.eqb c slash));
    [reflexivity|exact sluggedChar_intro|].
  apply toLowerCase_all_chars with (p := fun c => negb (Ascii.eqb c slash)).
  - intros c Hc%negb_true_iff. apply lowerChar_slugged, Hc.
  - apply trimEnd_all_chars, trimStart_all_chars, no_slash_all_chars, Hs.
Qed.

Lemma slugifySegment_isSlugSegment s :
  includes slash s = false ->
  truthy (slugifySegment s) = true ->
  isSlugSegment (slugifySegment s) = true.
Proof.
  intros Hs Hne. unfold isSlugSegment.
  rewrite Hne, (slugged_chars _ Hs). unfold slugifySegment, stripEdgeDashes.
  set (t := collapseDashes false (replaceSpaceRuns false (toLowerCase (trim s)))).
  destruct (collapseDashes_shape false (replaceSpaceRuns false (toLowerCase (trim s))))
    as [Hdd _]. fold t in Hdd.
  destruct (stripLeadingDash_shape t Hdd) as [Hdd1 Hsw1].
  destruct (stripTrailingDash_shape _ Hdd1) as [Hdd2 Hend2].
  rewrite (stripTrailingDash_head _ Hsw1), Hend2, Hdd2. reflexivity.
Qed.

Lemma trimStart_fixed s :
  all_chars (fun c => negb (isSpace c)) s = true -> trimStart s = s.
Proof.
  destruct s as [|c s]; simpl; [reflexivity|].
  intros [Hc%negb_true_iff _]%andb_prop. rewrite Hc. reflexivity.
Qed.

Lemma trimEnd_fixed s :
  all_chars (fun c => negb (isSpace c)) s = true -> trimEnd s = s.
Proof.
  induction s as [|c s IH]; simpl; [reflexivity|].
  intros [Hc%negb_true_iff Hs]%andb_prop. rewrite (IH Hs), Hc.
  destruct s; reflexivity.
Qed.

Lemma toLowerCase_fixed s :
  all_chars (fun c => Ascii.eqb (lowerChar c) c) s = true -> toLowerCase s = s.
Proof.
  induction s as [|c s IH]; simpl; [reflexivity|].
  intros [Hc%Ascii.eqb_eq Hs]%andb_prop. rewrite Hc, (IH Hs). reflexivity.
Qed.

Lemma replaceSpaceRuns_fixed b s :
  all_chars (fun c => negb (isSpace c)) s = true -> replaceSpaceRuns b s = s.
Proof.
  revert b. induction s as [|c s IH]; intros b; simpl; [reflexivity|].
  intros [Hc%negb_true_iff Hs]%andb_prop. rewrite Hc, (IH _ Hs). reflexivity.
Qed.

Lemma collapseDashes_fixed b s :
  hasDoubleDash s = false -> (b = true -> startsWithDash s = false) ->
  collapseDashes b s = s.
Proof.
  revert b. induction s as [|c s IH]; intros b; simpl; [reflexivity|].
  intros [Hhead Htail]%orb_false_elim Hb.
  destruct (Ascii.eqb c dash) eqn:E.
  - apply Ascii.eqb_eq in E. subst c.
    destruct b; [specialize (Hb eq_refl); discriminate|].
    rewrite IH; [reflexivity|exact Htail|]. intros _. exact Hhead.
  - rewrite IH; [reflexivity|exact Htail|discriminate].
Qed.

Lemma stripLeadingDash_fixed s :
  startsWithDash s = false -> stripLeadingDash s = s.
Proof. destruct s as [|c s]; simpl; [reflexivity|]. intros ->. reflexivity. Qed.

Lemma stripTrailingDash_fixed s :
  endsWithDash s = false -> stripTrailingDash s = s.
Proof.
  induction s as [|c s IH]; [reflexivity|].
  destruct s as [|d s].
  - simpl. intros ->. reflexivity.
  - rewrite stripTrailingDash_cons2. intros H. rewrite IH; [reflexivity|exact H].
Qed.

Lemma isSlugSegment_elim s :
  isSlugSegment s = true ->
  truthy s = true /\ all_chars sluggedChar s = true
  /\ startsWithDash s = false /\ endsWithDash s = false
  /\ hasDoubleDash s = false.
Proof.
  unfold isSlugSegment.
  intros [[[[H1 H2]%andb_prop H3%negb_true_iff]%andb_prop
             H4%negb_true_iff]%andb_prop H5%negb_true_iff]%andb_prop.
  auto.
Qed.

(** Slugifying a slug segment gives it back. *)
Lemma slugifySegment_fixed s : isSlugSegment s = true -> slugifySegment s = s.
Proof.
  intros (_ & Hchars & Hsw & Hew & Hdd)%isSlugSegment_elim.
  assert (Hns : all_chars (fun c => negb (isSpace c)) s = true).
  { eapply all_chars_impl; [|exact Hchars].
    intros c (-> & _ & _)%sluggedChar_elim. reflexivity. }
  assert (Hlow : all_chars (fun c => Ascii.eqb (lowerChar c) c) s = true).
  { eapply all_chars_impl; [|exact Hchars].
    intros c (_ & -> & _)%sluggedChar_elim. apply Ascii.eqb_refl. }
  unfold slugifySegment, stripEdgeDashes, trim.
  rewrite (trimStart_fixed _ Hns), (trimEnd_fixed _ Hns), (toLowerCase_fixed _ Hlow),
    (replaceSpaceRuns_fixed _ _ Hns), (collapseDashes_fixed _ _ Hdd)
    by discriminate.
  rewrite (stripLeadingDash_fixed _ Hsw). apply stripTrailingDash_fixed, Hew.
Qed.

Lemma isSlugSegment_no_slash s : isSlugSegment s = true -> includes slash s = false.
Proof.
  intros (_ & Hchars & _)%isSlugSegment_elim.
  induction s as [|c s IH]; simpl in *; [reflexivity|].
  apply andb_prop in Hchars as [(_ & _ & ->)%sluggedChar_elim Hs].
  apply IH, Hs.
Qed.

Lemma slug_segments x :
  Forall (fun seg => isSlugSegment seg = true)
         (List.filter truthy (List.map slugifySegment (split slash x))).
Proof.
  pose proof (split_no_sep slash x) as Hall.
  induction Hall as [|p pieces Hp _ IH]; simpl; [constructor|].
  destruct (truthy (slugifySegment p)) eqn:E; [|exact IH].
  constructor; [|exact IH]. apply slugifySegment_isSlugSegment; assumption.
Qed.

Lemma split_toSlug x :
  toSlug x <> EmptyString ->
  split slash (toSlug x)
  = List.filter truthy (List.map slugifySegment (split slash x)).
Proof.
  intros Hne. unfold toSlug in *. apply split_join.
  - intros E. rewrite E in Hne. apply Hne. reflexivity.
  - eapply List.Forall_impl; [|apply slug_segments].
    intros seg. apply isSlugSegment_no_slash.
Qed.

(** X1: whatever the input, a non-empty slug consists of segments that are
    non-empty, hold no white space and no slash, are left alone by
    [toLowerCase], neither start nor end with a dash and have no two dashes
    in a row; in particular the slug neither starts nor ends with a slash. *)
Theorem toSlug_segments_are_slugs x :
  toSlug x <> EmptyString ->
  Forall (fun seg => isSlugSegment seg = true) (split slash (toSlug x)).
Proof.
  intros Hne. rewrite (split_toSlug x Hne). apply slug_segments.
Qed.

(** X2: [toSlug] is idempotent: the slug of a slug is that slug. *)
Theorem toSlug_idempotent x : toSlug (toSlug x) = toSlug x.
Proof.
  destruct (String.eqb_spec (toSlug x) EmptyString) as [E|Hne].
  - rewrite E. reflexivity.
  - unfold toSlug at 1. rewrite (split_toSlug x Hne).
    pose proof (slug_segments x) as Hsegs. unfold toSlug.
    set (segs := List.filter truthy (List.map slugifySegment (split slash x))) in *.
    f_equal. clearbody segs. clear Hne.
    induction Hsegs as [|seg segs Hseg _ IH]; [reflexivity|].
    cbn [List.map List.filter]. rewrite (slugifySegment_fixed _ Hseg).
    destruct (isSlugSegment_elim _ Hseg) as [-> _]. rewrite IH. reflexivity.
Qed.

End SlugShapeFacts.

(** ** Tag pills *)

Section TagPillFacts.
Import Js Folders.

Lemma append_nil_r (s : string) : s ++ "" = s.
Proof. induction s as [|c s IH]; [reflexivity|]. rewrite append_cons, IH. reflexivity. Qed.

Lemma prefix_refl (s : string) : String.prefix s s = true.
Proof. rewrite <- (append_nil_r s) at 2. apply prefix_append. Qed.

Lemma all_chars_append p (a b : string) :
  all_chars p (a ++ b) = all_chars p a && all_chars p b.
Proof.
  induction a as [|c a IH]; [reflexivity|].
  rewrite append_cons. simpl. rewrite IH, andb_assoc. reflexivity.
Qed.

(** A needle without a space that matches across [a], a space and [b]
    already matches inside [a]. *)
Lemma prefix_not_across_space needle (a b : string) :
  all_chars notBlank needle = true ->
  String.prefix needle (a ++ String " " b) = true ->
  String.prefix needle a = true.
Proof.
  revert needle. induction a as [|d a IH]; intros needle Hn.
  - destruct needle as [|c t]; [reflexivity|]. simpl in *.
    apply andb_prop in Hn as [Hc _]. unfold notBlank in Hc.
    apply negb_true_iff, Ascii.eqb_neq in Hc.
    destruct (ascii_dec c " "); [contradiction|discriminate].
  - destruct needle as [|c t]; [reflexivity|].
    rewrite append_cons. simpl in *.
    apply andb_prop in Hn as [_ Ht].
    destruct (ascii_dec c d); [apply IH, Ht|discriminate].
Qed.

Lemma indexOf_None_cons needle d s :
  indexOf needle (String d s) = None ->
  String.prefix needle (String d s) = false /\ indexOf needle s = None.
Proof.
  cbn [indexOf]. destruct (String.prefix needle (String d s)); [discriminate|].
  destruct (indexOf needle s); [discriminate|]. auto.
Qed.

Lemma indexOf_after_space needle query :
  all_chars notBlank needle = true ->
  indexOf needle query = None ->
  indexOf needle (query ++ String " " needle) = Some (String.length query + 1)%nat.
Proof.
  intros Hn. induction query as [|d q IH]; intros Hnone.
  - assert (Hne : String.prefix needle (String " " needle) = false).
    { destruct (String.prefix needle (String " " needle)) eqn:P; [|reflexivity].
      apply (prefix_not_across_space needle "" needle Hn) in P.
      cbn [indexOf] in Hnone. rewrite P in Hnone. discriminate. }
    change ("" ++ String " " needle) with (String " " needle).
    cbn [indexOf]. rewrite Hne.
    assert (H0 : indexOf needle needle = Some 0%nat).
    { destruct needle; cbn [indexOf]; [reflexivity|].
      rewrite prefix_refl. reflexivity. }
    rewrite H0. reflexivity.
  - apply indexOf_None_cons in Hnone as [Hp Hq].
    rewrite append_cons. cbn [indexOf].
    destruct (String.prefix needle (String d (q ++ String " " needle))) eqn:P.
    + rewrite <- append_cons in P.
      apply (prefix_not_across_space _ _ _ Hn) in P. congruence.
    + rewrite (IH Hq). reflexivity.
Qed.

Lemma trimStart_blank s :
  all_chars isSpace s = true -> trimStart s = EmptyString.
Proof.
  induction s as [|c s IH]; simpl; [reflexivity|].
  intros [-> Hs]%andb_prop. apply IH, Hs.
Qed.

Lemma trimStart_append_space s :
  trimStart (s ++ " ")
  = if all_chars isSpace s then EmptyString else trimStart s ++ " ".
Proof.
  induction s as [|c s IH]; [reflexivity|].
  rewrite append_cons. simpl. destruct (isSpace c); [exact IH|reflexivity].
Qed.

Lemma trimEnd_append_space s : trimEnd (s ++ " ") = trimEnd s.
Proof.
  induction s as [|c s IH]; [reflexivity|].
  rewrite append_cons. cbn [trimEnd]. rewrite IH. reflexivity.
Qed.

Lemma trim_append_space s : trim (s ++ " ") = trim s.
Proof.
  unfold trim. rewrite trimStart_append_space.
  destruct (all_chars isSpace s) eqn:E.
  - rewrite (trimStart_blank _ E). reflexivity.
  - apply trimEnd_append_space.
Qed.

Lemma slice_all (s : string) : slice (String.length s) s = EmptyString.
Proof. induction s as [|c s IH]; [reflexivity|exact IH]. Qed.

(** X21: clicking a tag pill and then the filter pill it produced gives the
    query back, up to trimming, provided the tag holds no space and its
    qualifier did not already occur in the query. *)
Theorem tag_pill_add_then_remove query shiftKey tag :
  all_chars notBlank tag = true ->
  indexOf (tagQualifierText shiftKey [tag]) query = None ->
  removeTagFilter (addTagQualifier query shiftKey tag) shiftKey [tag]
  = Some (trim query).
Proof.
  intros Htag Hnone.
  set (text := tagQualifierText shiftKey [tag]) in *.
  assert (Htext : all_chars notBlank text = true).
  { unfold text, tagQualifierText, join. cbn [String.concat].
    rewrite !all_chars_append, Htag. destruct shiftKey; reflexivity. }
  assert (Hadd : addTagQualifier query shiftKey tag
                 = if truthy query then query ++ String " " text else text).
  { unfold addTagQualifier, text, tagQualifierText, join. cbn [String.concat].
    destruct (truthy query); reflexivity. }
  unfold removeTagFilter. fold text. rewrite Hadd.
  destruct (truthy query) eqn:Eq.
  - rewrite (indexOf_after_space text query Htext Hnone).
    assert (Hwhole : query ++ String " " text = (query ++ " ") ++ text)
      by (symmetry; apply (string_append_assoc query " " text)).
    assert (Hlen : (String.length query + 1)%nat = String.length (query ++ " "))
      by (rewrite string_length_append; reflexivity).
    rewrite Hwhole, Hlen. rewrite sliceTo_append.
    rewrite <- string_length_append, slice_all.
    cbn [trimStart]. rewrite append_nil_r. f_equal. apply trim_append_space.
  - apply truthy_false in Eq. subst query.
    assert (H0 : indexOf text text = Some 0%nat).
    { destruct text; cbn [indexOf]; [reflexivity|].
      rewrite prefix_refl. reflexivity. }
    rewrite H0. cbn [sliceTo Nat.add]. rewrite slice_all. reflexivity.
Qed.

End TagPillFacts.

(** ** The further properties at concrete inputs *)

Lemma note_is_direct_child_or_in_child_folder_witness :
  In "work/plans/q3" ["work/todo"; "work/plans/q3"; "home/list"]
  /\ Folders.getChildFolderNamesFromNotes
       ["work/todo"; "work/plans/q3"; "home/list"] "work" = ["plans"]
  /\ (Folders.isDirectChildNote "work/plans/q3" "work" = false
      <-> exists name,
            In name (Folders.getChildFolderNamesFromNotes
                       ["work/todo"; "work/plans/q3"; "home/list"] "work")
            /\ Js.startsWith "work/plans/q3"
                 (Folders.childFolderPath "work" name ++ "/") = true).
Proof.
  split; [right; left; reflexivity|]. split; [reflexivity|].
  apply (note_is_direct_child_or_in_child_folder
           ["work/todo"; "work/plans/q3"; "home/list"] "work" "work/plans/q3").
  - right; left; reflexivity.
  - right. reflexivity.
Defined.

Lemma breadcrumbs_are_ancestors_then_self_witness :
  Folders.breadcrumbPaths (Some "a/b/c") = ["a"; "a/b"; "a/b/c"].
Proof.
  apply (breadcrumbs_are_ancestors_then_self "a/b/c").
  - discriminate.
  - repeat constructor.
Defined.

Lemma created_folder_is_listed_witness :
  let w := worldOf {[ "work/todo.md" := "T" ]} ["work/old"] in
  fst (createNewFolder (U := specUtils) shorterFirst (Some "work")
         (Some " New Plans / Q3 ") w)
  = FolderOpened "work/new-plans/q3"
  /\ exists name,
       In name (Folders.childFolderNames shorterFirst ["work/todo"]
                  (virtualFolders
                     (snd (createNewFolder (U := specUtils) shorterFirst
                             (Some "work") (Some " New Plans / Q3 ") w)))
                  (Some "work"))
       /\ ("work/new-plans/q3" = Folders.childFolderPath "work" name
           \/ exists rest,
                "work/new-plans/q3"
                = Folders.childFolderPath "work" name ++ "/" ++ rest).
Proof.
  intros w. split; [reflexivity|].
  apply (created_folder_is_listed (U := specUtils) shorterFirst (Some "work")
           (Some " New Plans / Q3 ") w ["work/todo"] "work/new-plans/q3").
  reflexivity.
Defined.

Lemma created_folder_leaves_ledger_on_save_witness :
  let w := worldOf {[ "work/todo.md" := "T" ]} ["work/old"] in
  let w1 := snd (createNewFolder (U := specUtils) shorterFirst (Some "work")
                   (Some "Plans") w) in
  virtualFolders w1 = ["work/old"; "work/plans"]
  /\ In "work/plans" (virtualFolders w1)
  /\ ~ In "work/plans"
       (virtualFolders (saveNote (fun c => c) ("work/plans" ++ "/" ++ "q3") "Q3" w1)).
Proof.
  intros w w1. split; [reflexivity|].
  apply (created_folder_leaves_ledger_on_save (U := specUtils) shorterFirst
           (Some "work") (Some "Plans") w "work/plans" (fun c => c) "q3" "Q3").
  reflexivity.
Defined.

Lemma ledger_stays_in_order_witness :
  let w := worldOf {[ "a/x.md" := "X" ]} ["a"; "bb"; "a/c"] in
  consistentComparator shorterFirst
  /\ ledgerInOrder shorterFirst (virtualFolders w)
  /\ ledgerInOrder shorterFirst
       (virtualFolders
          (snd (createNewFolder (U := specUtils) shorterFirst None (Some "z") w))).
Proof.
  intros w.
  assert (Hc : consistentComparator shorterFirst).
  { unfold consistentComparator, inOrder, shorterFirst. split; intros; lia. }
  assert (Hl : ledgerInOrder shorterFirst (virtualFolders w)).
  { split.
    - repeat constructor; unfold inOrder, shorterFirst; simpl; lia.
    - apply NoDup_ListNoDup. apply (bool_decide_unpack _). vm_compute. exact I. }
  split; [exact Hc|]. split; [exact Hl|].
  apply (proj1 (ledger_stays_in_order (U := specUtils) shorterFirst w Hc Hl)).
Defined.

Lemma move_within_own_folder_is_noop_witness :
  let w := worldOf {[ "b/x.md" := "X"; "b/y.md" := "Y" ]} ["b"] in
  Forall (fun id => Folders.isDirectChildNote id "b" = true) ["b/x"; "b/gone"]
  /\ snd (moveNotesToFolder (U := specUtils) ["b/x"; "b/gone"] "b" w) = w
  /\ fst (moveNotesToFolder (U := specUtils) ["b/x"; "b/gone"] "b" w)
     = MoveSuccess 0 ["b/gone"].
Proof.
  intros w.
  assert (H : Forall (fun id => Folders.isDirectChildNote id "b" = true)
                     ["b/x"; "b/gone"])
    by (repeat constructor).
  split; [exact H|].
  destruct (move_within_own_folder_is_noop (U := specUtils)
              ["b/x"; "b/gone"] "b" w H) as [Hw Hr].
  split; [exact Hw|]. rewrite Hr. vm_compute. reflexivity.
Defined.

Lemma move_keeps_existing_files_witness :
  let w := worldOf {[ "a/y.md" := "Y"; "z.md" := "also [[a/y]]" ]} [] in
  let e := {| wf_markdownFiles :=
                {[ "b/y.md" := Some "Y"; "a/y.md" := None;
                   "z.md" := Some "also [[b/y]]" ]};
              wf_commitMessage := Some "Move 1 note(s) to b" |} in
  sent (snd (moveNotesToFolder (U := specUtils) ["a/y"] "b" w)) = (sent w ++ [e])%list
  /\ markdownFiles w !! "z.md" = Some "also [[a/y]]"
  /\ applyBatch (wf_markdownFiles e) (markdownFiles w) !! "z.md"
     = Some "also [[b/y]]".
Proof.
  intros w e.
  assert (Hsent : sent (snd (moveNotesToFolder (U := specUtils) ["a/y"] "b" w))
                  = (sent w ++ [e])%list) by (vm_compute; reflexivity).
  assert (Hk : markdownFiles w !! "z.md" = Some "also [[a/y]]")
    by (vm_compute; reflexivity).
  split; [exact Hsent|]. split; [exact Hk|].
  rewrite (move_keeps_existing_files (U := specUtils) ["a/y"] "b" w e "z.md"
             "also [[a/y]]" Hsent Hk).
  vm_compute. reflexivity.
Defined.

Lemma rename_applied_witness :
  let w := worldOf {[ "notes/draft.md" := "me: [[notes/draft]]";
                      "index.md" := "see [[notes/draft|My Draft]]" ]} [] in
  fst (renameNote (U := specUtils) "notes/draft" "notes/final"
         "me: [[notes/draft]]" w) = RenameSuccess
  /\ exists e,
       sent (snd (renameNote (U := specUtils) "notes/draft" "notes/final"
                    "me: [[notes/draft]]" w)) = (sent w ++ [e])%list
       /\ applyBatch (wf_markdownFiles e) (markdownFiles w) !! "notes/draft.md"
          = None.
Proof.
  intros w. split; [reflexivity|].
  destruct (rename_applied (U := specUtils) "notes/draft" "notes/final"
              "me: [[notes/draft]]" w eq_refl) as (e & Hsent & _ & Hold & _).
  exists e. split; [exact Hsent|exact Hold].
Defined.

Lemma toSlug_segments_are_slugs_witness :
  NoteId.toSlug " Caf! / -- Hello,  World -- " = "caf!/hello,-world"
  /\ Forall (fun seg => isSlugSegment seg = true)
            (Js.split Js.slash (NoteId.toSlug " Caf! / -- Hello,  World -- ")).
Proof.
  split; [reflexivity|].
  apply (toSlug_segments_are_slugs " Caf! / -- Hello,  World -- ").
  discriminate.
Defined.

Lemma tag_pill_add_then_remove_witness :
  Folders.addTagQualifier " hello -tag:draft" false "book/fiction"
  = " hello -tag:draft tag:book/fiction"
  /\ Folders.removeTagFilter
       (Folders.addTagQualifier " hello -tag:draft" false "book/fiction")
       false ["book/fiction"]
     = Some "hello -tag:draft".
Proof.
  split; [reflexivity|].
  apply (tag_pill_add_then_remove " hello -tag:draft" false "book/fiction");
    reflexivity.
Defined.
